(** * MRTODP: orchestrator and robot interface

    A shallow embedding of
    - [backend/cpp/task_manager/orchestrator.cpp] (class [Orchestrator]),
    - [backend/cpp/robot_interface/interface.cpp] (class [RobotInterface]),
    - [backend/c/drivers/driver.c] (the simulated robot execution),
    and the properties of the delegation and dispatch logic.

    Conventions.  A C++ member function becomes a computation in a small
    state-and-exception monad over the object's members.  [std::string] is
    [string]; [int] is [Z] (the code only compares strengths, it never does
    arithmetic on them); [std::map<std::string, V>] is an association list
    kept in ascending key order, the order in which a range-for visits it.
    Where the code hands a [std::string] to a C interface through [c_str()],
    or reads a [const char*] back, the callee sees the text up to the first
    NUL byte; this is [c_str].  Where it serialises a JSON value, the text
    must be well-formed UTF-8, or [dump] throws.  What the outside world
    answers (the ZeroMQ exchange, the SQLite return codes, the clock, the
    dynamic loader) is an explicit argument. *)

From Stdlib Require Import String Ascii ZArith List Bool Lia.
From Stdlib Require Import Sorting.Sorted Structures.OrderedTypeEx.
From Stdlib Require Import DecimalString.
Import ListNotations.

Local Open Scope string_scope.
Local Open Scope Z_scope.

(** ** C strings *)

(** What a callee reads through [s.c_str()]: the bytes before the first
    NUL. *)
Fixpoint c_str (s : string) : string :=
  match s with
  | EmptyString => EmptyString
  | String c s' => if Ascii.eqb c Ascii.zero then EmptyString
                   else String c (c_str s')
  end.

(** A text without NUL byte. *)
Definition is_c_string (s : string) : Prop := c_str s = s.

(** ** Exceptions *)

(** The classes thrown in the three files; all derive from [std::exception],
    which is what the handlers catch. *)
Inductive exception : Type :=
| invalid_argument (msg : string)
| runtime_error (msg : string)
| zmq_error_t (msg : string)
| json_exception (msg : string).

(** [e.what()], a [const char*] into the message. *)
Definition what (e : exception) : string :=
  match e with
  | invalid_argument m | runtime_error m | zmq_error_t m | json_exception m =>
      c_str m
  end.

(** ** State and exception monad *)

Module Eff.
Section WithState.
Context {S : Type}.

(** A member function: from the object's state to a value or a thrown
    exception, and the state it leaves.  A throw keeps the side effects
    made before it. *)
Definition M (A : Type) : Type := S -> (exception + A) * S.

Definition ret {A} (a : A) : M A := fun s => (inr a, s).
Definition throw {A} (e : exception) : M A := fun s => (inl e, s).
Definition bind {A B} (m : M A) (k : A -> M B) : M B :=
  fun s => match m s with
           | (inr a, s') => k a s'
           | (inl e, s') => (inl e, s')
           end.
Definition try_catch {A} (m : M A) (handler : exception -> M A) : M A :=
  fun s => match m s with
           | (inr a, s') => (inr a, s')
           | (inl e, s') => handler e s'
           end.
Definition gets {A} (f : S -> A) : M A := fun s => (inr (f s), s).
Definition modify (f : S -> S) : M unit := fun s => (inr tt, f s).
End WithState.
End Eff.
Import Eff.

Declare Scope eff_scope.
Delimit Scope eff_scope with eff.
Notation "x <- m ;; k" := (bind m (fun x => k))
  (at level 61, m at next level, right associativity) : eff_scope.
Notation "m ;;; k" := (bind m (fun _ => k))
  (at level 61, right associativity) : eff_scope.
Local Open Scope eff_scope.

(** ** [std::map<std::string, V>] *)

Module StdMap.
Section WithValue.
Context {V : Type}.

Definition t := list (string * V).

Definition empty : t := [].

(** [find(k)]: the value stored at [k], [None] for [end()]. *)
Fixpoint find (k : string) (m : t) : option V :=
  match m with
  | [] => None
  | (k', v) :: m' => if String.eqb k k' then Some v else find k m'
  end.

(** Assignment through [operator[]]: the key keeps its place in the key
    order, an existing value is overwritten. *)
Fixpoint insert (k : string) (v : V) (m : t) : t :=
  match m with
  | [] => [(k, v)]
  | (k', v') :: m' =>
      match String.compare k k' with
      | Lt => (k, v) :: (k', v') :: m'
      | Eq => (k, v) :: m'
      | Gt => (k', v') :: insert k v m'
      end
  end.

(** Reading through [operator[]]: a missing key is first inserted with
    the value-initialised [dflt]. *)
Definition subscript (k : string) (dflt : V) (m : t) : V * t :=
  match find k m with
  | Some v => (v, m)
  | None => (dflt, insert k dflt m)
  end.

Definition keys (m : t) : list string := map fst m.

(** The representation invariant: keys strictly ascending in the byte
    order of [std::string::operator<]. *)
Definition sorted (m : t) : Prop := StronglySorted String_as_OT.lt (keys m).
End WithValue.
Arguments t : clear implicits.
End StdMap.

(** ** JSON values (nlohmann::json) *)

(** Only the shape matters: an object is its members in key order. *)
#[warnings="-register-all"] Inductive json : Type :=
| JNull
| JBool (b : bool)
| JNumber (n : Z)
| JString (s : string)
| JArray (items : list json)
| JObject (members : list (string * json)).

(** [j.contains(key)]: false on everything that is not an object. *)
Definition json_contains (j : json) (key : string) : bool :=
  match j with
  | JObject members =>
      match StdMap.find key members with Some _ => true | None => false end
  | _ => false
  end.

(** [j[key]] on an object that contains [key]. *)
Definition json_at (j : json) (key : string) : json :=
  match j with
  | JObject members =>
      match StdMap.find key members with Some v => v | None => JNull end
  | _ => JNull
  end.

Definition json_is_string (j : json) : bool :=
  match j with JString _ => true | _ => false end.

Definition json_get_string (j : json) : string :=
  match j with JString s => s | _ => EmptyString end.

(** ** Numbers as text *)

(** Reduction of an SQLite 64-bit integer to a C [int]
    ([sqlite3_column_int]). *)
Definition to_int32 (z : Z) : Z := (z + 2 ^ 31) mod 2 ^ 32 - 2 ^ 31.

(** [std::to_string(int)]. *)
Definition to_string (z : Z) : string := NilZero.string_of_int (Z.to_int z).

(** ** Serialisation ([nlohmann::json::dump]) *)

(** The states of the UTF-8 decoder the serialiser runs over every string:
    a code point is complete, the byte cannot continue any well-formed
    sequence, or one, two or three continuation bytes are still expected,
    the first of them restricted after the lead bytes E0, ED, F0 and F4 (no
    overlong forms, no surrogates, nothing above U+10FFFF). *)
Inductive utf8_state : Type :=
| UTF8_ACCEPT
| UTF8_REJECT
| tail_1
| tail_2
| tail_3
| after_E0
| after_ED
| after_F0
| after_F4.

Definition in_range (lo hi byte : N) : bool :=
  (N.leb lo byte && N.leb byte hi)%bool.

(** One step of the decoder. *)
Definition decode (state : utf8_state) (byte : N) : utf8_state :=
  match state with
  | UTF8_ACCEPT =>
      if in_range 0 127 byte then UTF8_ACCEPT
      else if in_range 194 223 byte then tail_1
      else if N.eqb byte 224 then after_E0
      else if in_range 225 236 byte || in_range 238 239 byte then tail_2
      else if N.eqb byte 237 then after_ED
      else if N.eqb byte 240 then after_F0
      else if in_range 241 243 byte then tail_3
      else if N.eqb byte 244 then after_F4
      else UTF8_REJECT
  | tail_1 => if in_range 128 191 byte then UTF8_ACCEPT else UTF8_REJECT
  | tail_2 => if in_range 128 191 byte then tail_1 else UTF8_REJECT
  | tail_3 => if in_range 128 191 byte then tail_2 else UTF8_REJECT
  | after_E0 => if in_range 160 191 byte then tail_1 else UTF8_REJECT
  | after_ED => if in_range 128 159 byte then tail_1 else UTF8_REJECT
  | after_F0 => if in_range 144 191 byte then tail_2 else UTF8_REJECT
  | after_F4 => if in_range 128 143 byte then tail_2 else UTF8_REJECT
  | UTF8_REJECT => UTF8_REJECT
  end.

Definition hex_digit (n : N) : ascii :=
  match n with
  | 0%N => "0" | 1%N => "1" | 2%N => "2" | 3%N => "3" | 4%N => "4"
  | 5%N => "5" | 6%N => "6" | 7%N => "7" | 8%N => "8" | 9%N => "9"
  | 10%N => "A" | 11%N => "B" | 12%N => "C" | 13%N => "D" | 14%N => "E"
  | _ => "F"
  end%char.

(** A byte as two capital hexadecimal digits. *)
Definition hex_bytes (byte : ascii) : string :=
  String (hex_digit (N.div (N_of_ascii byte) 16))
    (String (hex_digit (N.modulo (N_of_ascii byte) 16)) EmptyString).

(** The loop of the serialiser over the bytes of a string from index [i]
    on, [last] being the byte before: the text of the [type_error] 316 it
    throws at the first byte the decoder rejects, or at the end of a string
    that stops inside a sequence; [None] when the string is written. *)
Fixpoint dump_escaped (s : string) (i : Z) (state : utf8_state) (last : ascii)
  : option string :=
  match s with
  | EmptyString =>
      match state with
      | UTF8_ACCEPT => None
      | _ => Some ("[json.exception.type_error.316] "
                   ++ "incomplete UTF-8 string; last byte: 0x"
                   ++ hex_bytes last)
      end
  | String byte s' =>
      match decode state (N_of_ascii byte) with
      | UTF8_REJECT =>
          Some ("[json.exception.type_error.316] "
                ++ "invalid UTF-8 byte at index " ++ to_string i ++ ": 0x"
                ++ hex_bytes byte)
      | state' => dump_escaped s' (i + 1) state' byte
      end
  end.

(** The text of the exception [dump] throws for a string, if any. *)
Definition string_dump_error (s : string) : option string :=
  dump_escaped s 0 UTF8_ACCEPT Ascii.zero.

(** A string [dump] writes: well-formed UTF-8. *)
Definition valid_utf8 (s : string) : bool :=
  match string_dump_error s with None => true | Some _ => false end.

(** The text of the exception [j.dump()] throws, if any: that of the first
    key or string value, in the order of writing, that is not well-formed
    UTF-8. *)
Fixpoint json_dump_error (j : json) : option string :=
  match j with
  | JString s => string_dump_error s
  | JArray items =>
      (fix elements (l : list json) : option string :=
         match l with
         | [] => None
         | x :: l' =>
             match json_dump_error x with
             | Some text => Some text
             | None => elements l'
             end
         end) items
  | JObject members =>
      (fix pairs (l : list (string * json)) : option string :=
         match l with
         | [] => None
         | (key, x) :: l' =>
             match string_dump_error key with
             | Some text => Some text
             | None =>
                 match json_dump_error x with
                 | Some text => Some text
                 | None => pairs l'
                 end
             end
         end) members
  | _ => None
  end.

(** ** The task ledger (SQLite table [tasks]) *)

(** One row of [tasks (id, task_type, robot_id, status, created_at)]. *)
Record TaskRow : Type := mkTaskRow {
  row_id : Z;
  row_task_type : string;
  row_robot_id : string;
  row_status : string;
  row_created_at : string
}.

(** The table in insertion order together with the [AUTOINCREMENT] counter
    ([sqlite_sequence]): the largest id ever issued. *)
Record Ledger : Type := mkLedger {
  rows : list TaskRow;
  seq : Z
}.

(** [INSERT INTO tasks (task_type, robot_id, status) VALUES (?, ?, ?)]: the
    id is one more than the largest ever issued, [created_at] defaults to
    the current timestamp. *)
Definition ledger_insert (task_type robot_id status now : string) (l : Ledger)
  : Ledger :=
  {| rows := rows l ++ [mkTaskRow (seq l + 1) task_type robot_id status now];
     seq := seq l + 1 |}.

(** [SELECT ... FROM tasks WHERE id = ?]. *)
Definition ledger_select (task_id : Z) (l : Ledger) : list TaskRow :=
  filter (fun r => row_id r =? task_id) (rows l).

(** What SQLite maintains for an [AUTOINCREMENT] table: no stored id exceeds
    the counter, and ids are unique. *)
Definition ledger_wf (l : Ledger) : Prop :=
  Forall (fun r => row_id r <= seq l) (rows l) /\ NoDup (map row_id (rows l)).

(** ** What the outside world answers during one call *)

(** The request/reply exchange with the AI engine over the REQ socket. *)
Inductive zmq_exchange : Type :=
| SendThrows (msg : string)        (* [send] raised [zmq::error_t] *)
| RecvThrows (msg : string)        (* [recv] raised [zmq::error_t] *)
| RecvTimeout                      (* [recv] returned no value *)
| ReplyUnparsable (msg : string)   (* [json::parse] raised *)
| Reply (response : json).

(** Return codes of the two SQLite calls of a statement, as the error text
    [sqlite3_errmsg] would give when the call does not succeed. *)
Record sqlite_answer : Type := mkSqlite {
  prepare_error : option string;
  step_error : option string
}.

Definition sqlite_ok : sqlite_answer := mkSqlite None None.

Record World : Type := mkWorld {
  ai_engine : zmq_exchange;
  sqlite : sqlite_answer;
  current_timestamp : string
}.

(** ** Class Orchestrator *)

Definition CapabilityMap := StdMap.t (StdMap.t Z).

(** The members the member functions read or write, and the traces of what
    left the process. *)
Record Orchestrator : Type := mkOrchestrator {
  robot_capabilities_ : CapabilityMap;
  db_ : Ledger;
  zmq_sent : list json;          (* requests handed to [zmq_socket_] *)
  task_published : list json;    (* messages published on /mrtodp/tasks *)
  cerr : list string             (* lines written to [std::cerr] *)
}.

Definition set_capabilities (c : CapabilityMap) (o : Orchestrator) :=
  mkOrchestrator c (db_ o) (zmq_sent o) (task_published o) (cerr o).
Definition set_db (l : Ledger) (o : Orchestrator) :=
  mkOrchestrator (robot_capabilities_ o) l (zmq_sent o) (task_published o) (cerr o).
Definition zmq_send (j : json) (o : Orchestrator) :=
  mkOrchestrator (robot_capabilities_ o) (db_ o) (zmq_sent o ++ [j])
    (task_published o) (cerr o).
Definition ros_publish (j : json) (o : Orchestrator) :=
  mkOrchestrator (robot_capabilities_ o) (db_ o) (zmq_sent o)
    (task_published o ++ [j]) (cerr o).
Definition cerr_write (line : string) (o : Orchestrator) :=
  mkOrchestrator (robot_capabilities_ o) (db_ o) (zmq_sent o)
    (task_published o) (cerr o ++ [line]).

(** The in-class initialiser of [robot_capabilities_]. *)
Definition initial_capabilities : CapabilityMap :=
  [ ("Ford", [("heavy_lifting", 90); ("navigation", 70)]);
    ("Scion", [("delicate_task", 85); ("navigation", 80)]) ].

(** The object after construction on a ledger file holding [l]. *)
Definition new_Orchestrator (l : Ledger) : Orchestrator :=
  mkOrchestrator initial_capabilities l [] [] [].

(** [j.dump()] to hand the text on: throws when a string of [j] is not
    well-formed UTF-8.  The traces keep the value that was serialised. *)
Definition dump {S : Type} (j : json) : M (S:=S) unit :=
  match json_dump_error j with
  | Some text => throw (json_exception text)
  | None => ret tt
  end.

(** One iteration of the loop of [selectRobotByCapability] on the pair
    [(best_robot, best_score)]. *)
Definition select_step (task_type : string) (best : string * Z)
  (entry : string * StdMap.t Z) : string * Z :=
  let '(robot_id, caps) := entry in
  match StdMap.find task_type caps with
  | Some strength => if strength >? snd best then (robot_id, strength) else best
  | None => best
  end.

Definition select_loop (task_type : string) (table : CapabilityMap)
  (best : string * Z) : string * Z :=
  fold_left (select_step task_type) table best.

(** [Orchestrator::selectRobotByCapability]. *)
Definition selectRobotByCapability (task_type : string) : M (S:=Orchestrator) string :=
  table <- gets robot_capabilities_ ;;
  let best_robot := fst (select_loop task_type table (EmptyString, 0)) in
  if String.eqb best_robot EmptyString
  then throw (runtime_error ("No robot found with capability: " ++ task_type))
  else ret best_robot.

(** The exchange with the AI engine inside the [try] block of
    [queryAIEngine], from [send] to the [return]. *)
Definition request_reply (x : zmq_exchange) (request : json)
  : M (S:=Orchestrator) string :=
  match x with
  | SendThrows msg => throw (zmq_error_t msg)
  | RecvThrows msg => modify (zmq_send request) ;;; throw (zmq_error_t msg)
  | RecvTimeout =>
      modify (zmq_send request) ;;;
      throw (runtime_error "No response from AI engine")
  | ReplyUnparsable msg =>
      modify (zmq_send request) ;;; throw (json_exception msg)
  | Reply response =>
      modify (zmq_send request) ;;;
      if negb (json_contains response "robot_id")
         || negb (json_is_string (json_at response "robot_id"))
      then throw (runtime_error
                    "Invalid AI engine response: missing or invalid robot_id")
      else ret (json_get_string (json_at response "robot_id"))
  end.

(** The [try] block of [queryAIEngine]: the request is serialised before
    anything is sent. *)
Definition queryAIEngine_try (x : zmq_exchange) (task_type : string)
  : M (S:=Orchestrator) string :=
  let request := JObject [("task_type", JString task_type)] in
  dump request ;;; request_reply x request.

(** [Orchestrator::queryAIEngine]. *)
Definition queryAIEngine (x : zmq_exchange) (task_type : string)
  : M (S:=Orchestrator) string :=
  try_catch (queryAIEngine_try x task_type)
    (fun e =>
       modify (cerr_write ("AI engine query failed: " ++ what e
                           ++ ", using fallback")) ;;;
       selectRobotByCapability task_type).

(** [Orchestrator::storeTask]; the three texts are bound as C strings
    ([sqlite3_bind_text] with length -1). *)
Definition storeTask (w : World) (task_type robot_id status : string)
  : M (S:=Orchestrator) unit :=
  match prepare_error (sqlite w) with
  | Some msg =>
      throw (runtime_error ("Failed to prepare insert statement: " ++ msg))
  | None =>
      match step_error (sqlite w) with
      | Some msg => throw (runtime_error ("Failed to insert task: " ++ msg))
      | None =>
          modify (fun o =>
            set_db (ledger_insert (c_str task_type) (c_str robot_id)
                      (c_str status) (current_timestamp w) (db_ o)) o)
      end
  end.

(** [robot_capabilities_[robot_id][capability]]: both subscripts insert what
    they do not find. *)
Definition capability_subscript (robot_id capability : string)
  : M (S:=Orchestrator) Z :=
  fun o =>
    let '(caps, table) := StdMap.subscript robot_id StdMap.empty
                            (robot_capabilities_ o) in
    let '(strength, caps') := StdMap.subscript capability 0 caps in
    (inr strength, set_capabilities (StdMap.insert robot_id caps' table) o).

(** One of the two hardcoded checks of [delegateTask]; the subscript is only
    evaluated when the left operand of [&&] holds. *)
Definition check_minimum (capability task_type robot_id : string)
  : M (S:=Orchestrator) unit :=
  if String.eqb task_type capability
  then strength <- capability_subscript robot_id capability ;;
       if strength <? 50
       then throw (runtime_error ("Robot " ++ robot_id ++ " lacks sufficient "
                                  ++ capability ++ " capability"))
       else ret tt
  else ret tt.

(** The part of [delegateTask] that follows the choice of [robot_id]: the
    membership test, the two checks, the store, the serialisation of the
    message and its publication. *)
Definition delegate_to (w : World) (task_type robot_id : string)
  : M (S:=Orchestrator) unit :=
  table <- gets robot_capabilities_ ;;
  match StdMap.find robot_id table with
  | None => throw (runtime_error ("Robot " ++ robot_id ++ " not found"))
  | Some _ =>
      check_minimum "heavy_lifting" task_type robot_id ;;;
      check_minimum "delicate_task" task_type robot_id ;;;
      try_catch (storeTask w task_type robot_id "assigned")
        (fun e => throw (runtime_error
                           ("Failed to store task: " ++ what e))) ;;;
      let task_data := JObject [("robot_id", JString robot_id);
                                ("task_type", JString task_type)] in
      dump task_data ;;;
      modify (ros_publish task_data)
  end.

(** [Orchestrator::delegateTask]. *)
Definition delegateTask (w : World) (task_type : string)
  : M (S:=Orchestrator) unit :=
  if String.eqb task_type EmptyString
  then throw (invalid_argument "Task type cannot be empty")
  else
    robot_id <- try_catch (queryAIEngine (ai_engine w) task_type)
                  (fun e => throw (runtime_error
                                     ("AI engine query failed: " ++ what e))) ;;
    delegate_to w task_type robot_id.

(** The [std::map<std::string, std::string>] built for one selected row;
    the text columns are read as C strings. *)
Definition row_to_map (r : TaskRow) : StdMap.t string :=
  StdMap.insert "created_at" (c_str (row_created_at r))
    (StdMap.insert "status" (c_str (row_status r))
       (StdMap.insert "robot_id" (c_str (row_robot_id r))
          (StdMap.insert "task_type" (c_str (row_task_type r))
             (StdMap.insert "id" (to_string (to_int32 (row_id r)))
                StdMap.empty)))).

(** [Orchestrator::getTaskStatus]. *)
Definition getTaskStatus (answer : sqlite_answer) (task_id : Z)
  : M (S:=Orchestrator) (list (StdMap.t string)) :=
  match prepare_error answer with
  | Some msg =>
      throw (runtime_error ("Failed to prepare select statement: " ++ msg))
  | None =>
      l <- gets db_ ;;
      let result := map row_to_map (ledger_select task_id l) in
      match step_error answer with
      | Some msg => throw (runtime_error ("Failed to query tasks: " ++ msg))
      | None =>
          match result with
          | [] => throw (runtime_error
                           ("Task ID " ++ to_string task_id ++ " not found"))
          | _ => ret result
          end
      end
  end.

(** ** Buffers *)

(** [snprintf(buf, size, ...)] keeps at most [size - 1] characters of the
    formatted text. *)
Definition snprintf (size : nat) (text : string) : string :=
  substring 0 (size - 1) text.

(** [strncpy(dst, src, size - 1)] into a zero-initialised array of [size]
    characters. *)
Definition strncpy_field (size : nat) (src : string) : string :=
  substring 0 (size - 1) (c_str src).

(** ** driver.c *)

Module Driver.

Definition MAX_COMMAND_LENGTH : nat := 1024.
Definition MAX_RESPONSE_LENGTH : nat := 512.

Inductive RobotType : Type :=
| ROBOT_KRL | ROBOT_RAPID | ROBOT_KAREL | ROBOT_VAL3 | ROBOT_UNKNOWN.

Record RobotCommand : Type := mkRobotCommand {
  robot_id : string;   (* char[32] *)
  format : string;     (* char[16] *)
  command : string     (* char[MAX_COMMAND_LENGTH] *)
}.

Record DriverResponse : Type := mkDriverResponse {
  status : string;     (* char[16] *)
  message : string     (* char[MAX_RESPONSE_LENGTH] *)
}.

(** [validate_command]: 1 when no field is empty, else 0. *)
Definition validate_command (cmd : RobotCommand) : Z :=
  if (String.length (robot_id cmd) =? 0)%nat then 0
  else if (String.length (format cmd) =? 0)%nat then 0
  else if (String.length (command cmd) =? 0)%nat then 0
  else 1.

Definition get_robot_type (fmt : string) : RobotType :=
  if String.eqb fmt "KRL" then ROBOT_KRL
  else if String.eqb fmt "RAPID" then ROBOT_RAPID
  else if String.eqb fmt "KAREL" then ROBOT_KAREL
  else if String.eqb fmt "VAL3" then ROBOT_VAL3
  else ROBOT_UNKNOWN.

Definition executed (dialect : string) (cmd : RobotCommand) : Z * DriverResponse :=
  (1, mkDriverResponse "success"
        (snprintf MAX_RESPONSE_LENGTH
           (dialect ++ " executed for " ++ robot_id cmd ++ ": " ++ command cmd))).

(** [execute_on_robot]: the return value and the response it fills in. *)
Definition execute_on_robot (cmd : RobotCommand) : Z * DriverResponse :=
  match get_robot_type (format cmd) with
  | ROBOT_KRL => executed "KRL" cmd
  | ROBOT_RAPID => executed "RAPID" cmd
  | ROBOT_KAREL => executed "KAREL" cmd
  | ROBOT_VAL3 => executed "VAL3" cmd
  | ROBOT_UNKNOWN =>
      (0, mkDriverResponse "error"
            (snprintf MAX_RESPONSE_LENGTH
               ("Unsupported format: " ++ format cmd)))
  end.

End Driver.

(** ** Class RobotInterface *)

(** A [void*] returned by [dlopen]. *)
Definition handle := nat.

(** The driver entry point, a C function of the command text, the response
    buffer and its size returning [int]: from the command text and the
    buffer size to the return value and the text left in the buffer. *)
Definition ExecuteDriverFn := string -> nat -> Z * string.

(** The file system and the dynamic loader; a failure carries the text of
    [dlerror()]. *)
Record Loader : Type := mkLoader {
  fs_exists : string -> bool;
  dlopen : string -> string + handle;
  dlsym : handle -> string -> string + ExecuteDriverFn
}.

Record RobotInterface : Type := mkRobotInterface {
  driver_handles_ : StdMap.t handle;
  robot_driver_map_ : StdMap.t string;
  robot_language_map_ : StdMap.t string;
  driver_calls : list (handle * string);  (* driver invocations made *)
  responses_published : list string;      (* messages on /mrtodp/responses *)
  ros_errors : list string                (* ROS_ERROR lines *)
}.

Definition set_handles (h : StdMap.t handle) (r : RobotInterface) :=
  mkRobotInterface h (robot_driver_map_ r) (robot_language_map_ r)
    (driver_calls r) (responses_published r) (ros_errors r).
Definition set_mappings (d l : StdMap.t string) (r : RobotInterface) :=
  mkRobotInterface (driver_handles_ r) d l
    (driver_calls r) (responses_published r) (ros_errors r).
Definition record_call (h : handle) (cmd : string) (r : RobotInterface) :=
  mkRobotInterface (driver_handles_ r) (robot_driver_map_ r)
    (robot_language_map_ r) (driver_calls r ++ [(h, cmd)])
    (responses_published r) (ros_errors r).
Definition publish_response (msg : string) (r : RobotInterface) :=
  mkRobotInterface (driver_handles_ r) (robot_driver_map_ r)
    (robot_language_map_ r) (driver_calls r)
    (responses_published r ++ [msg]) (ros_errors r).
Definition ROS_ERROR (line : string) (r : RobotInterface) :=
  mkRobotInterface (driver_handles_ r) (robot_driver_map_ r)
    (robot_language_map_ r) (driver_calls r) (responses_published r)
    (ros_errors r ++ [line]).

(** [RobotInterface::initRobotMappings]. *)
Definition initRobotMappings : M (S:=RobotInterface) unit :=
  modify (set_mappings
            [ ("Ford", "backend/c/drivers/ford_driver.so");
              ("Scion", "backend/assembly/drivers/scion_driver.so") ]
            [ ("Ford", "KRL"); ("Scion", "RAPID") ]).

(** [RobotInterface::loadDriver]. *)
Definition loadDriver (ld : Loader) (driver_path : string)
  : M (S:=RobotInterface) handle :=
  match dlopen ld (c_str driver_path) with
  | inr h => ret h
  | inl err => throw (runtime_error ("Failed to load driver " ++ driver_path
                                     ++ ": " ++ err))
  end.

(** [RobotInterface::getDriverFunction]. *)
Definition getDriverFunction (ld : Loader) (h : handle) (function_name : string)
  : M (S:=RobotInterface) ExecuteDriverFn :=
  match dlsym ld h (c_str function_name) with
  | inr f => ret f
  | inl err => throw (runtime_error ("Failed to load function " ++ function_name
                                     ++ ": " ++ err))
  end.

(** The translation step of [sendToRobot]. *)
Definition translate (lang task_data : string) : M (S:=RobotInterface) string :=
  if String.eqb lang "KRL" then ret ("KRL_EXEC(" ++ task_data ++ ")")
  else if String.eqb lang "RAPID" then ret ("RAPID_EXEC(" ++ task_data ++ ")")
  else if String.eqb lang "KAREL" || String.eqb lang "VAL3"
  then ret (lang ++ "_EXEC(" ++ task_data ++ ")")
  else throw (runtime_error ("Unsupported robot language: " ++ lang)).

(** [RobotInterface::sendToRobot]. *)
Definition sendToRobot (ld : Loader) (robot_id task_data : string)
  : M (S:=RobotInterface) unit :=
  handles <- gets driver_handles_ ;;
  match StdMap.find robot_id handles with
  | None => throw (runtime_error ("No driver loaded for robot " ++ robot_id))
  | Some h =>
      langs <- gets robot_language_map_ ;;
      match StdMap.find robot_id langs with
      | None =>
          throw (runtime_error ("No language mapping for robot " ++ robot_id))
      | Some lang =>
          command <- translate lang task_data ;;
          execute <- getDriverFunction ld h "execute_task" ;;
          let '(result, response) := execute (c_str command) 256%nat in
          modify (record_call h (c_str command)) ;;;
          if negb (result =? 0)
          then throw (runtime_error ("Driver execution failed for robot "
                                     ++ robot_id ++ ": " ++ response))
          else modify (publish_response response)
      end
  end.

(** The body of the loading loop of the constructor for one entry of
    [robot_driver_map_].  In [driver_handles_[robot_id] = loadDriver(path)]
    the right operand is evaluated first (C++17, the language level of the
    loop's structured bindings), so a throwing [loadDriver] leaves
    [driver_handles_] untouched. *)
Definition load_entry (ld : Loader) (entry : string * string)
  : M (S:=RobotInterface) unit :=
  let '(robot_id, driver_path) := entry in
  try_catch
    ((if negb (fs_exists ld driver_path)
      then throw (runtime_error ("Driver file " ++ driver_path
                                 ++ " does not exist"))
      else ret tt) ;;;
     h <- loadDriver ld driver_path ;;
     modify (fun r => set_handles (StdMap.insert robot_id h (driver_handles_ r)) r))
    (fun e => modify (ROS_ERROR ("Failed to load driver for robot "
                                 ++ c_str robot_id ++ ": " ++ what e))).

(** A range-for over a container. *)
Fixpoint for_each {S A : Type} (body : A -> M (S:=S) unit) (l : list A)
  : M (S:=S) unit :=
  match l with
  | [] => ret tt
  | x :: l' => body x ;;; for_each body l'
  end.

(** The constructor [RobotInterface::RobotInterface]. *)
Definition RobotInterface_ctor (ld : Loader) : M (S:=RobotInterface) unit :=
  initRobotMappings ;;;
  drivers <- gets robot_driver_map_ ;;
  for_each (load_entry ld) drivers.

(** The object the constructor leaves, from default-initialised members. *)
Definition new_RobotInterface (ld : Loader) : RobotInterface :=
  snd (RobotInterface_ctor ld (mkRobotInterface [] [] [] [] [] [])).

(** [RobotInterface::isRobotAvailable]. *)
Definition isRobotAvailable (r : RobotInterface) (robot_id : string) : bool :=
  match StdMap.find robot_id (driver_handles_ r) with
  | Some _ =>
      match StdMap.find robot_id (robot_language_map_ r) with
      | Some _ => true
      | None => false
      end
  | None => false
  end.

(** Modelled from the spec: the [execute_task] entry point that [sendToRobot]
    resolves in a robot's driver library; the libraries ([ford_driver.so],
    [scion_driver.so]) are not among the sources.  Following section 4.4
    (the backend accepts robot id, format and command, rejects empty fields
    or an unsupported format with an error, and otherwise answers with a
    message that echoes the dialect and the robot id), it runs [driver.c]'s
    [validate_command] and [execute_on_robot] on the command it is given,
    and reports success as 0. *)
Definition execute_task (robot_id format : string) : ExecuteDriverFn :=
  fun task_data response_size =>
    let cmd := Driver.mkRobotCommand (strncpy_field 32 robot_id)
                 (strncpy_field 16 format)
                 (strncpy_field Driver.MAX_COMMAND_LENGTH task_data) in
    if Driver.validate_command cmd =? 0
    then (1, snprintf response_size "Invalid command data")
    else
      let '(ok, response) := Driver.execute_on_robot cmd in
      (if ok =? 0 then 1 else 0,
       snprintf response_size (Driver.message response)).

(** ** Vocabulary of the specification *)

(** The error kinds of the specification, recognised by the exception the
    code throws for them. *)
Definition ValidationError (e : exception) : Prop :=
  e = invalid_argument "Task type cannot be empty".

(** As thrown by [selectRobotByCapability]. *)
Definition NotFound (capability : string) (e : exception) : Prop :=
  e = runtime_error ("No robot found with capability: " ++ capability).

(** As it reaches the caller of [delegateTask], which prefixes the text. *)
Definition NoCapableRobot (task_type : string) (e : exception) : Prop :=
  e = runtime_error ("AI engine query failed: "
                     ++ "No robot found with capability: " ++ c_str task_type).

Definition InsufficientCapability (robot_id capability : string)
  (e : exception) : Prop :=
  e = runtime_error ("Robot " ++ robot_id ++ " lacks sufficient "
                     ++ capability ++ " capability").


(** UnknownRobot of the dispatch layer. *)
Definition NoDriverLoaded (robot_id : string) (e : exception) : Prop :=
  e = runtime_error ("No driver loaded for robot " ++ robot_id).

Definition UnknownDialect (lang : string) (e : exception) : Prop :=
  e = runtime_error ("Unsupported robot language: " ++ lang).

(** [capabilityOf(robot_id, capability)]. *)
Definition strength_of (table : CapabilityMap) (robot_id capability : string)
  : option Z :=
  match StdMap.find robot_id table with
  | Some caps => StdMap.find capability caps
  | None => None
  end.

(** The strength the checks of [delegateTask] read: 0 for a capability the
    robot does not list. *)
Definition strength_or_zero (table : CapabilityMap)
  (robot_id capability : string) : Z :=
  match strength_of table robot_id capability with
  | Some s => s
  | None => 0
  end.

(** Robot [r] has positive strength [s] for the capability. *)
Definition capable (table : CapabilityMap) (capability r : string) (s : Z)
  : Prop :=
  strength_of table r capability = Some s /\ 0 < s.

(** The robot section 4.1 asks [bestRobotFor] to select: maximum strength
    among the capable robots, the lexicographically smallest id among
    equals. *)
Definition best_robot (table : CapabilityMap) (capability r : string) : Prop :=
  exists s, capable table capability r s /\
    forall r' s', capable table capability r' s' ->
      s' < s \/ (s' = s /\ String.leb r r' = true).

(** Section 4.1 read on [selectRobotByCapability], for one table and one
    capability. *)
Definition bestRobotFor_as_specified (o : Orchestrator) (capability : string)
  : Prop :=
  (forall r, best_robot (robot_capabilities_ o) capability r ->
     fst (selectRobotByCapability capability o) = inr r) /\
  ((forall r s, ~ capable (robot_capabilities_ o) capability r s) ->
     exists e, fst (selectRobotByCapability capability o) = inl e /\
               NotFound capability e).


(** The task types one of the two hardcoded checks applies to. *)
Definition checked_capability (task_type : string) : bool :=
  String.eqb task_type "heavy_lifting" || String.eqb task_type "delicate_task".

(** How the table [after] a subscript for [(robot_id, capability)] relates
    to the table [before] it: every listed strength is kept, and the one
    pair that may have been added carries strength 0. *)
Definition grown_by (robot_id capability : string) (grows : bool)
  (before after : CapabilityMap) : Prop :=
  forall r c,
    strength_of after r c
    = match strength_of before r c with
      | Some s => Some s
      | None => if grows && String.eqb r robot_id && String.eqb c capability
                then Some 0 else None
      end.


(** Step 7 of section 4.3: the value handed back to the caller is the
    record that was appended. *)
Definition returns_task_record : Prop :=
  exists record_of : unit -> TaskRow,
    forall w task_type o v o',
      delegateTask w task_type o = (inr v, o') ->
      In (record_of v) (rows (db_ o')) /\
      row_task_type (record_of v) = task_type.

(** The advisory failures of section 4.2: transport error, no response, or a
    response without a string field [robot_id]. *)
Definition advisory_fails (x : zmq_exchange) : Prop :=
  match x with
  | SendThrows _ | RecvThrows _ | RecvTimeout | ReplyUnparsable _ => True
  | Reply response =>
      json_contains response "robot_id" = false \/
      json_is_string (json_at response "robot_id") = false
  end.

(** Step 2 of section 4.3 read on [delegateTask], for one world, task type
    and object: after an advisory failure the robot delegated to is the
    best robot of section 4.1, and the call fails with NoCapableRobot only
    when no robot is capable. *)
Definition falls_back_as_specified (w : World) (task_type : string)
  (o : Orchestrator) : Prop :=
  (forall r, best_robot (robot_capabilities_ o) task_type r ->
     fst (queryAIEngine (ai_engine w) task_type o) = inr r) /\
  (forall e, fst (delegateTask w task_type o) = inl e ->
     NoCapableRobot task_type e ->
     forall r s, ~ capable (robot_capabilities_ o) task_type r s).

(** The advisory answering with a well-formed recommendation. *)
Definition recommends (robot_id : string) : zmq_exchange :=
  Reply (JObject [("robot_id", JString robot_id)]).

Definition with_ai (x : zmq_exchange) (w : World) : World :=
  mkWorld x (sqlite w) (current_timestamp w).

(** Two outcomes of [delegateTask] agree in everything but the diagnostics
    ([cerr]) and the advisory traffic. *)
Definition same_delegation (a b : (exception + unit) * Orchestrator) : Prop :=
  fst a = fst b /\
  robot_capabilities_ (snd a) = robot_capabilities_ (snd b) /\
  db_ (snd a) = db_ (snd b) /\
  task_published (snd a) = task_published (snd b).

(** A C [int]. *)
Definition is_int (z : Z) : Prop := - 2 ^ 31 <= z < 2 ^ 31.


(** The supported dialects of section 4.4. *)
Definition supported_dialect (lang : string) : Prop :=
  lang = "KRL" \/ lang = "RAPID" \/ lang = "KAREL" \/ lang = "VAL3".

(** [needle] occurs in [text]. *)
Definition contains (text needle : string) : Prop :=
  exists before after, text = before ++ needle ++ after.

(** The backend of the robot configured at [driver_path] loads. *)
Definition loads (ld : Loader) (driver_path : string) : Prop :=
  fs_exists ld driver_path = true /\
  exists h, dlopen ld (c_str driver_path) = inr h.

(** The capability table is left alone: every robot lists the same
    capabilities with the same strengths. *)
Definition same_capabilities (a b : CapabilityMap) : Prop :=
  forall robot_id capability,
    strength_of a robot_id capability = strength_of b robot_id capability.

(** ** RobotInterface::taskCallback *)

(** The text of a message on /mrtodp/tasks as [json::parse] sees it. *)
Inductive ros_message : Type :=
| Unparsable (msg : string)      (* [json::parse] raises with this text *)
| Parsed (task_data : json).

(** The interface object together with the lines given to [ROS_INFO]. *)
Record RosNode : Type := mkRosNode {
  interface : RobotInterface;
  ros_info : list string
}.

Definition node_error (line : string) (n : RosNode) : RosNode :=
  mkRosNode (ROS_ERROR line (interface n)) (ros_info n).
Definition node_info (line : string) (n : RosNode) : RosNode :=
  mkRosNode (interface n) (ros_info n ++ [line]).

(** A member function of the interface run inside the node. *)
Definition lift {A : Type} (m : M (S:=RobotInterface) A) : M (S:=RosNode) A :=
  fun n => let '(res, r') := m (interface n) in (res, mkRosNode r' (ros_info n)).

(** [j.get<std::string>()]: raises a [type_error] on anything but a string;
    [type_error] is the text the library gives that exception. *)
Definition json_get_checked (type_error : json -> string) (j : json)
  : M (S:=RosNode) string :=
  match j with
  | JString s => ret s
  | _ => throw (json_exception (type_error j))
  end.

(** [RobotInterface::taskCallback]. *)
Definition taskCallback (ld : Loader) (type_error : json -> string)
  (msg : ros_message) : M (S:=RosNode) unit :=
  try_catch
    (match msg with
     | Unparsable text => throw (json_exception text)
     | Parsed task_data =>
         if negb (json_contains task_data "robot_id")
            || negb (json_contains task_data "task_type")
         then modify (node_error
                        "Invalid task data: missing robot_id or task_type")
         else
           robot_id <- json_get_checked type_error
                         (json_at task_data "robot_id") ;;
           task_type <- json_get_checked type_error
                          (json_at task_data "task_type") ;;
           lift (sendToRobot ld robot_id task_type) ;;;
           modify (node_info ("Task " ++ c_str task_type
                              ++ " sent to robot " ++ c_str robot_id))
     end)
    (fun e => modify (node_error ("Task processing failed: " ++ what e))).

(** ** driver.c: process_robot_command *)

Module DriverMain.
Import Driver.

(** What [json_tokener_parse] and the three [json_object_object_get_ex]
    lookups give for the input text: no object at all, or for each of
    [robotId], [format], [command] the text [json_object_get_string]
    returns when the member is present.  A member holding [null], for which
    it returns no text and [strncpy] reads a null pointer, is not covered. *)
Inductive json_input : Type :=
| InvalidJson
| JsonFields (robotId fmt cmd : option string).

(** What libcurl answers during one call. *)
Record Curl : Type := mkCurl {
  curl_easy_init_ok : bool;      (* [curl_easy_init] returned a handle *)
  curl_easy_perform_ok : bool    (* [curl_easy_perform] returned CURLE_OK *)
}.

(** The double quote. *)
Definition dq : string := String "034"%char EmptyString.

(** The format of the output, a JSON object of [status] and [message]. *)
Definition status_json (status message : string) : string :=
  "{" ++ dq ++ "status" ++ dq ++ ":" ++ dq ++ status ++ dq ++ ","
  ++ dq ++ "message" ++ dq ++ ":" ++ dq ++ message ++ dq ++ "}".

(** [send_response]: 1 when the POST succeeded, else 0. *)
Definition send_response (curl : Curl) (response : DriverResponse) : Z :=
  if curl_easy_perform_ok curl then 1 else 0.

(** The outcome of one call: the return value, the text left in [output],
    and the responses handed to [send_response]. *)
Record Outcome : Type := mkOutcome {
  returned : Z;
  output : string;
  posted : list DriverResponse
}.

Definition error_response (text : string) : DriverResponse :=
  mkDriverResponse "error" (snprintf MAX_RESPONSE_LENGTH text).

(** [process_robot_command]. *)
Definition process_robot_command (curl : Curl) (input : json_input)
  (output_size : nat) : Outcome :=
  if negb (curl_easy_init_ok curl)
  then mkOutcome 0
         (snprintf output_size
            (status_json "error" "CURL initialization failed")) []
  else
    match input with
    | InvalidJson =>
        mkOutcome 0
          (snprintf output_size (status_json "error" "Invalid JSON input"))
          [error_response "Invalid JSON input"]
    | JsonFields (Some j_robot_id) (Some j_format) (Some j_command) =>
        let cmd := mkRobotCommand (strncpy_field 32 j_robot_id)
                     (strncpy_field 16 j_format)
                     (strncpy_field MAX_COMMAND_LENGTH j_command) in
        if validate_command cmd =? 0
        then mkOutcome 0
               (snprintf output_size
                  (status_json "error" "Invalid command data"))
               [error_response "Invalid command data"]
        else
          let '(ok, response) := execute_on_robot cmd in
          if ok =? 0
          then mkOutcome 0
                 (snprintf output_size
                    (status_json "error" (message response)))
                 [response]
          else if send_response curl response =? 0
          then mkOutcome 0
                 (snprintf output_size
                    (status_json "error" "Failed to send response"))
                 [response]
          else mkOutcome 1
                 (snprintf output_size
                    (status_json "success" (message response)))
                 [response]
    | JsonFields _ _ _ =>
        mkOutcome 0
          (snprintf output_size
             (status_json "error" "Missing required fields"))
          [error_response "Missing required fields in JSON"]
    end.

End DriverMain.

(** ** More vocabulary *)

(** UnknownRobot of the orchestrator. *)
Definition RobotNotFound (robot_id : string) (e : exception) : Prop :=
  e = runtime_error ("Robot " ++ robot_id ++ " not found").

(** PersistenceError: the store failed. *)
Definition PersistenceError (e : exception) : Prop :=
  exists text, e = runtime_error ("Failed to store task: " ++ text).

(** The [type_error] of a serialisation. *)
Definition SerialisationError (e : exception) : Prop :=
  exists text, e = json_exception text.

(** The advisory answered with a string recommendation. *)
Definition advises (x : zmq_exchange) (robot_id : string) : Prop :=
  exists response,
    x = Reply response /\
    json_contains response "robot_id" = true /\
    json_at response "robot_id" = JString robot_id.

(** The message [delegateTask] publishes for a robot and a task type. *)
Definition dispatch_request (robot_id task_type : string) : json :=
  JObject [("robot_id", JString robot_id); ("task_type", JString task_type)].

(** The message names a robot and a task type, both as strings. *)
Definition carries (msg : ros_message) (robot_id task_type : string) : Prop :=
  exists task_data,
    msg = Parsed task_data /\
    json_contains task_data "robot_id" = true /\
    json_contains task_data "task_type" = true /\
    json_at task_data "robot_id" = JString robot_id /\
    json_at task_data "task_type" = JString task_type.

(** What [taskCallback] makes of the outcome of [sendToRobot]: a line for
    [ROS_INFO] when it returned, a line for [ROS_ERROR] when it threw. *)
Definition logged (robot_id task_type : string) (n : RosNode)
  (outcome : (exception + unit) * RobotInterface) : RosNode :=
  match fst outcome with
  | inr _ =>
      mkRosNode (snd outcome)
        (ros_info n ++ ["Task " ++ c_str task_type ++ " sent to robot "
                        ++ c_str robot_id])
  | inl e =>
      mkRosNode (ROS_ERROR ("Task processing failed: " ++ what e)
                   (snd outcome))
        (ros_info n)
  end.

(** A request the driver can carry out: the three members are present, the
    robot id and the command are not empty as C texts, and the format is one
    of the four. *)
Definition well_formed_request (input : DriverMain.json_input) : Prop :=
  exists id fmt cmd,
    input = DriverMain.JsonFields (Some id) (Some fmt) (Some cmd)
    /\ c_str id <> EmptyString /\ c_str cmd <> EmptyString
    /\ supported_dialect (c_str fmt).

(** * Properties *)

(** ** The key order *)

Lemma string_lt_leb (a b : string) :
  String_as_OT.lt a b -> String.leb a b = true.
Proof.
  intros H. apply String_as_OT.cmp_lt in H.
  unfold String.leb. unfold String_as_OT.cmp in H. now rewrite H.
Qed.

Lemma string_lt_not_geb (a b : string) :
  String_as_OT.lt a b -> String.leb b a = false.
Proof.
  intros H. apply String_as_OT.cmp_lt in H. unfold String_as_OT.cmp in H.
  unfold String.leb. rewrite String.compare_antisym, H. reflexivity.
Qed.

Lemma string_leb_refl (a : string) : String.leb a a = true.
Proof.
  unfold String.leb.
  assert (H : String_as_OT.cmp a a = Eq) by now apply String_as_OT.cmp_eq.
  unfold String_as_OT.cmp in H. now rewrite H.
Qed.

Lemma string_lt_irrefl (a : string) : ~ String_as_OT.lt a a.
Proof. intros H. apply (String_as_OT.lt_not_eq _ _ H). reflexivity. Qed.

Lemma string_compare_refl (a : string) : String.compare a a = Eq.
Proof. apply (proj2 (String_as_OT.cmp_eq a a)). reflexivity. Qed.

(** ** Lookup and assignment in a map *)

Section StdMapFacts.
Context {V : Type}.
Implicit Types (m : StdMap.t V) (k : string) (v : V).

Lemma find_In k v m : StdMap.find k m = Some v -> In (k, v) m.
Proof.
  induction m as [|[k' v'] m IH]; simpl; [discriminate|].
  destruct (String.eqb_spec k k') as [->|_].
  - intros [= ->]. now left.
  - intros H. right. now apply IH.
Qed.

Lemma find_None_keys k m : StdMap.find k m = None -> ~ In k (StdMap.keys m).
Proof.
  induction m as [|[k' v'] m IH]; simpl; [tauto|].
  destruct (String.eqb_spec k k') as [->|Hne]; [discriminate|].
  intros H [Heq|Hin]; [now apply Hne | now apply IH].
Qed.

Lemma In_keys k v m : In (k, v) m -> In k (StdMap.keys m).
Proof. intros H. apply (in_map fst) in H. exact H. Qed.

(** In a well-formed map a key has one entry, the one [find] returns. *)
Lemma In_find_sorted k v m :
  StdMap.sorted m -> In (k, v) m -> StdMap.find k m = Some v.
Proof.
  unfold StdMap.sorted.
  induction m as [|[k' v'] m IH]; simpl; [tauto|].
  intros Hs Hin. apply StronglySorted_inv in Hs as [Hs Hall].
  destruct Hin as [[= -> ->]|Hin].
  - now rewrite String.eqb_refl.
  - destruct (String.eqb_spec k k') as [->|_]; [|now apply IH].
    exfalso. rewrite Forall_forall in Hall.
    apply (string_lt_irrefl k'), Hall. now apply In_keys with v.
Qed.

(** Reading back after an assignment. *)
Lemma find_insert k k' v m :
  StdMap.find k (StdMap.insert k' v m)
  = if String.eqb k k' then Some v else StdMap.find k m.
Proof.
  induction m as [|[k0 v0] m IH]; simpl.
  - reflexivity.
  - destruct (String.compare k' k0) eqn:Hc; simpl.
    + apply String.compare_eq_iff in Hc. subst k0.
      now destruct (String.eqb k k').
    + now destruct (String.eqb k k').
    + rewrite IH. destruct (String.eqb_spec k k0) as [->|_]; [|reflexivity].
      destruct (String.eqb_spec k0 k') as [->|_]; [|reflexivity].
      rewrite string_compare_refl in Hc. discriminate Hc.
Qed.

Lemma find_insert_same k v m : StdMap.find k (StdMap.insert k v m) = Some v.
Proof. now rewrite find_insert, String.eqb_refl. Qed.

Lemma find_insert_other k k' v m :
  k <> k' -> StdMap.find k (StdMap.insert k' v m) = StdMap.find k m.
Proof.
  intros H. rewrite find_insert.
  now destruct (String.eqb_spec k k') as [->|_].
Qed.

(** Overwriting a key with the value it already has changes nothing. *)
Lemma insert_same_sorted k v m :
  StdMap.sorted m -> StdMap.find k m = Some v -> StdMap.insert k v m = m.
Proof.
  unfold StdMap.sorted.
  induction m as [|[k' v'] m IH]; simpl; [discriminate|].
  intros Hs Hf. apply StronglySorted_inv in Hs as [Hs Hall].
  destruct (String.eqb_spec k k') as [->|Hne].
  - injection Hf as ->. now rewrite string_compare_refl.
  - destruct (String.compare k k') eqn:Hc.
    + apply String.compare_eq_iff in Hc. contradiction.
    + exfalso. apply find_In, In_keys in Hf.
      rewrite Forall_forall in Hall. specialize (Hall _ Hf).
      apply (string_lt_irrefl k).
      apply String_as_OT.lt_trans with k'; [|exact Hall].
      now apply String_as_OT.cmp_lt.
    + f_equal. now apply IH.
Qed.

(** What [operator[]] reads. *)
Lemma subscript_value k dflt m :
  fst (StdMap.subscript k dflt m)
  = match StdMap.find k m with Some v => v | None => dflt end.
Proof. unfold StdMap.subscript. now destruct (StdMap.find k m). Qed.

Lemma find_subscript k k' dflt m :
  StdMap.find k (snd (StdMap.subscript k' dflt m))
  = match StdMap.find k m with
    | Some v => Some v
    | None => if String.eqb k k' then Some dflt else None
    end.
Proof.
  unfold StdMap.subscript.
  destruct (StdMap.find k' m) eqn:Hf; simpl.
  - destruct (StdMap.find k m) eqn:Hk; [reflexivity|].
    destruct (String.eqb_spec k k') as [->|_]; [congruence | reflexivity].
  - rewrite find_insert. destruct (String.eqb_spec k k') as [->|_].
    + now rewrite Hf.
    + now destruct (StdMap.find k m).
Qed.
End StdMapFacts.

(** ** The selection loop *)

Section SelectLoop.
Variable task_type : string.

Lemma select_step_cases best robot_id caps :
  (exists v, StdMap.find task_type caps = Some v /\ snd best < v /\
             select_step task_type best (robot_id, caps) = (robot_id, v))
  \/
  (select_step task_type best (robot_id, caps) = best /\
   forall v, StdMap.find task_type caps = Some v -> v <= snd best).
Proof.
  unfold select_step. destruct (StdMap.find task_type caps) as [v|].
  - destruct (Z.gtb_spec v (snd best)) as [Hgt|Hle].
    + left. exists v. repeat split; [lia].
    + right. split; [reflexivity|]. intros v' [= <-]. exact Hle.
  - right. split; [reflexivity | discriminate].
Qed.

(** After the loop, started from the pair [best], over a well-formed
    table: the score has not decreased and bounds every strength seen;
    and either the pair is unchanged, or it names an entry of the table
    with that strength which precedes, in key order, every other entry
    with that strength. *)
Lemma select_loop_spec table : forall best,
  StdMap.sorted table ->
  let best' := select_loop task_type table best in
  snd best <= snd best' /\
  (forall r caps v, In (r, caps) table ->
     StdMap.find task_type caps = Some v -> v <= snd best') /\
  (best' = best \/
   (snd best < snd best' /\
    (exists caps, In (fst best', caps) table /\
                  StdMap.find task_type caps = Some (snd best')) /\
    (forall r caps, In (r, caps) table ->
       StdMap.find task_type caps = Some (snd best') ->
       fst best' = r \/ String_as_OT.lt (fst best') r))).
Proof.
  unfold StdMap.sorted, select_loop.
  induction table as [|[k c] rest IH]; intros best Hs; cbn [fold_left].
  - split; [lia|]. split; [intros ? ? ? []|]. now left.
  - simpl in Hs. apply StronglySorted_inv in Hs as [Hs Hall].
    rewrite Forall_forall in Hall.
    set (b1 := select_step task_type best (k, c)) in *.
    destruct (IH b1 Hs) as (HA & HB & HC). clear IH.
    set (best' := fold_left (select_step task_type) rest b1) in *.
    destruct (select_step_cases best k c) as [(v & Hf & Hlt & Hb1)|[Hb1 Hle]];
      fold b1 in Hb1.
    + (* the head entry becomes the best *)
      assert (Hv : snd b1 = v) by now rewrite Hb1.
      split; [lia|]. split.
      * intros r caps v' [[= <- <-]|Hin] Hf'.
        -- rewrite Hf in Hf'. injection Hf' as <-. lia.
        -- now apply HB with r caps.
      * right. destruct HC as [Heq|(Hlt' & (caps & Hin & Hf') & Hfirst)].
        -- rewrite Heq, Hb1. simpl. split; [exact Hlt|]. split.
           ++ exists c. split; [now left | exact Hf].
           ++ intros r caps [[= <- <-]|Hin] _; [now left|].
              right. apply Hall. now apply In_keys with caps.
        -- split; [lia|]. split.
           ++ exists caps. split; [now right | exact Hf'].
           ++ intros r caps' [[= <- <-]|Hin'] Hf''.
              ** rewrite Hf in Hf''. injection Hf'' as Heq. lia.
              ** now apply Hfirst with caps'.
    + (* the head entry is passed over *)
      rewrite Hb1 in HA, HC.
      split; [exact HA|]. split.
      * intros r caps v' [[= <- <-]|Hin] Hf'.
        -- specialize (Hle _ Hf'). lia.
        -- now apply HB with r caps.
      * destruct HC as [Heq|(Hlt' & (caps & Hin & Hf') & Hfirst)];
          [now left|].
        right. split; [exact Hlt'|]. split.
        -- exists caps. split; [now right | exact Hf'].
        -- intros r caps' [[= <- <-]|Hin'] Hf''.
           ++ specialize (Hle _ Hf''). lia.
           ++ now apply Hfirst with caps'.
Qed.
End SelectLoop.

(** [selectRobotByCapability] reads the table and writes nothing. *)
Lemma selectRobotByCapability_pure task_type o :
  snd (selectRobotByCapability task_type o) = o.
Proof.
  unfold selectRobotByCapability, bind, gets, throw, ret.
  now destruct (String.eqb _ _).
Qed.

Lemma capable_In table capability r s :
  capable table capability r s ->
  exists caps, In (r, caps) table /\ StdMap.find capability caps = Some s.
Proof.
  unfold capable, strength_of. intros [H _].
  destruct (StdMap.find r table) as [caps|] eqn:Hf; [|discriminate].
  exists caps. split; [now apply find_In | exact H].
Qed.

Lemma In_capable table capability r caps s :
  StdMap.sorted table -> In (r, caps) table ->
  StdMap.find capability caps = Some s -> 0 < s ->
  capable table capability r s.
Proof.
  intros Hs Hin Hf Hpos. split; [|exact Hpos].
  unfold strength_of. now rewrite (In_find_sorted _ _ _ Hs Hin).
Qed.

(** The pair the loop ends with, from the initial pair: either nothing is
    capable and the pair is untouched, or it holds the best robot of
    section 4.1 and its strength. *)
Lemma select_loop_best table capability :
  StdMap.sorted table ->
  let best := select_loop capability table (EmptyString, 0) in
  (best = (EmptyString, 0) /\ forall r s, ~ capable table capability r s)
  \/ (best_robot table capability (fst best) /\
      capable table capability (fst best) (snd best)).
Proof.
  intros Hs best.
  destruct (select_loop_spec capability table (EmptyString, 0) Hs)
    as (_ & Hmax & Hres).
  fold best in Hmax, Hres. simpl in Hres.
  destruct Hres as [Heq|(Hpos & (caps & Hin & Hf) & Hfirst)].
  - left. split; [exact Heq|]. intros r s Hc.
    destruct (capable_In _ _ _ _ Hc) as (caps & Hin & Hf).
    specialize (Hmax _ _ _ Hin Hf). rewrite Heq in Hmax. simpl in Hmax.
    destruct Hc as [_ Hc]. lia.
  - right.
    assert (Hcap : capable table capability (fst best) (snd best))
      by now apply In_capable with caps.
    split; [|exact Hcap].
    exists (snd best). split; [exact Hcap|].
    intros r' s' Hc'.
    destruct (capable_In _ _ _ _ Hc') as (caps' & Hin' & Hf').
    pose proof (Hmax _ _ _ Hin' Hf') as Hle.
    destruct (Z.eq_dec s' (snd best)) as [->|Hne]; [|left; lia].
    right. split; [reflexivity|].
    destruct (Hfirst _ _ Hin' Hf') as [<-|Hlt].
    + apply string_leb_refl.
    + now apply string_lt_leb.
Qed.

(** The best robot of section 4.1 is unique. *)
Lemma best_robot_unique table capability r1 r2 :
  best_robot table capability r1 -> best_robot table capability r2 -> r1 = r2.
Proof.
  intros (s1 & Hc1 & H1) (s2 & Hc2 & H2).
  destruct (H1 _ _ Hc2) as [Hlt|[-> Hle12]];
    destruct (H2 _ _ Hc1) as [Hlt'|[Heq Hle21]]; try lia.
  now apply String.leb_antisym.
Qed.

(** ** C4: the fallback selection *)

(** Enumerates the capable robots of a table given by its entries. *)
Ltac capable_cases H :=
  let caps := fresh "caps" in
  let Hin := fresh "Hin" in
  let Hf := fresh "Hf" in
  let Hpos := fresh "Hpos" in
  pose proof (proj2 H) as Hpos;
  apply capable_In in H; destruct H as (caps & Hin & Hf);
  simpl in Hin;
  repeat (destruct Hin as [Hin|Hin];
          [injection Hin as <- <-; simpl in Hf;
           try discriminate Hf; try (injection Hf as <-)|]);
  try contradiction.

(** C4, as stated, fails on a table whose best robot has the empty string as
    its id: the loop keeps its result in a string that starts empty, and the
    function takes an empty result to mean that nothing was found.  The
    table [{"": {x: 5}}] is a well-formed map, robot [""] is the only and
    hence the best robot for [x], and [selectRobotByCapability] throws
    instead of returning it. *)
Lemma bestRobotFor_empty_id_counterexample :
  let o := mkOrchestrator [(EmptyString, [("x", 5)])] (mkLedger [] 0) [] [] [] in
  StdMap.sorted (robot_capabilities_ o) /\ ~ bestRobotFor_as_specified o "x".
Proof.
  split.
  - repeat constructor.
  - intros [H _]. specialize (H EmptyString).
    assert (Hbest : best_robot [(EmptyString, [("x", 5)])] "x" EmptyString).
    { exists 5. split; [split; [reflexivity | lia]|].
      intros r' s' Hc. capable_cases Hc. right. now split. }
    specialize (H Hbest). discriminate H.
Qed.

(** C4, amended: on every well-formed table and for every capability,
    [selectRobotByCapability] returns the robot of maximum strength for the
    capability among the robots of positive strength, the lexicographically
    smallest id among equals, provided that id is not the empty string;
    whatever it returns is that robot; it throws "No robot found" (NotFound)
    when no robot has positive strength (and also when the best robot's id
    is the empty string, which the code uses to mean that nothing was
    found); it leaves the object unchanged and its outcome depends on the
    table alone. *)
Theorem selectRobotByCapability_best (o : Orchestrator) (capability : string) :
  StdMap.sorted (robot_capabilities_ o) ->
  (forall r, best_robot (robot_capabilities_ o) capability r ->
             r <> EmptyString ->
             selectRobotByCapability capability o = (inr r, o)) /\
  (forall r, fst (selectRobotByCapability capability o) = inr r ->
             best_robot (robot_capabilities_ o) capability r) /\
  ((forall r s, ~ capable (robot_capabilities_ o) capability r s) ->
   exists e, selectRobotByCapability capability o = (inl e, o) /\
             NotFound capability e) /\
  (best_robot (robot_capabilities_ o) capability EmptyString ->
   exists e, selectRobotByCapability capability o = (inl e, o) /\
             NotFound capability e) /\
  (forall o2, robot_capabilities_ o2 = robot_capabilities_ o ->
              fst (selectRobotByCapability capability o2)
              = fst (selectRobotByCapability capability o)).
Proof.
  intros Hs.
  pose proof (select_loop_best _ capability Hs) as Hloop. cbv zeta in Hloop.
  unfold selectRobotByCapability, bind, gets, throw, ret, NotFound.
  set (best := select_loop capability (robot_capabilities_ o) (EmptyString, 0))
    in *.
  repeat split.
  - intros r Hbest Hne.
    destruct Hloop as [[_ Hnone]|[Hb _]].
    + destruct Hbest as (s & Hc & _). now apply Hnone in Hc.
    + rewrite (best_robot_unique _ _ _ _ Hbest Hb) in *.
      now destruct (String.eqb_spec (fst best) EmptyString).
  - intros r.
    destruct (String.eqb_spec (fst best) EmptyString) as [_|Hne];
      simpl; [discriminate|].
    intros [= <-]. destruct Hloop as [[Heq _]|[Hb _]]; [|exact Hb].
    rewrite Heq in Hne. now elim Hne.
  - intros Hnone. destruct Hloop as [[Heq _]|[_ Hc]].
    + rewrite Heq. simpl. eauto.
    + now apply Hnone in Hc.
  - intros Hbest. destruct Hloop as [[Heq _]|[Hb _]].
    + rewrite Heq. simpl. eauto.
    + rewrite <- (best_robot_unique _ _ _ _ Hbest Hb). simpl. eauto.
  - intros o2 Heq. rewrite Heq. fold best. now destruct (String.eqb _ _).
Qed.

(** The theorem at work on a table with a tie: [Ada] and [Bob] both weld at
    70, [Cy] at 30; [Ada] is returned, and nothing is found for [paint]. *)
Lemma selectRobotByCapability_best_witness :
  let o := mkOrchestrator
             [("Ada", [("weld", 70)]); ("Bob", [("weld", 70)]);
              ("Cy", [("weld", 30)])]
             (mkLedger [] 0) [] [] [] in
  selectRobotByCapability "weld" o = (inr "Ada", o) /\
  exists e, selectRobotByCapability "paint" o = (inl e, o) /\
            NotFound "paint" e.
Proof.
  intros o.
  assert (Hs : StdMap.sorted (robot_capabilities_ o)).
  { repeat constructor. }
  split.
  - apply (proj1 (selectRobotByCapability_best o "weld" Hs)).
    + exists 70. split; [split; [reflexivity | lia]|].
      intros r' s' Hc. capable_cases Hc.
      * right. now split.
      * right. now split.
      * left. lia.
    + discriminate.
  - apply (proj1 (proj2 (proj2 (selectRobotByCapability_best o "paint" Hs)))).
    intros r s Hc. capable_cases Hc.
Defined.

(** ** The advisory query *)

(** What [dump] checks in the request: the task type. *)
Lemma json_dump_error_request task_type :
  json_dump_error (JObject [("task_type", JString task_type)])
  = string_dump_error task_type.
Proof.
  cbn [json_dump_error].
  change (string_dump_error "task_type") with (@None string).
  now destruct (string_dump_error task_type).
Qed.

(** What [dump] checks in the message for the robot: the robot id, then the
    task type. *)
Lemma json_dump_error_task_data robot_id task_type :
  json_dump_error (JObject [("robot_id", JString robot_id);
                            ("task_type", JString task_type)])
  = match string_dump_error robot_id with
    | Some text => Some text
    | None => string_dump_error task_type
    end.
Proof.
  cbn [json_dump_error].
  change (string_dump_error "robot_id") with (@None string).
  change (string_dump_error "task_type") with (@None string).
  destruct (string_dump_error robot_id); [reflexivity|].
  now destruct (string_dump_error task_type).
Qed.

Lemma valid_utf8_true s : valid_utf8 s = true <-> string_dump_error s = None.
Proof.
  unfold valid_utf8. destruct (string_dump_error s); split; congruence.
Qed.

Lemma valid_utf8_false s :
  valid_utf8 s = false <-> exists text, string_dump_error s = Some text.
Proof.
  unfold valid_utf8. destruct (string_dump_error s) as [text|]; split;
    try congruence; eauto.
  intros [text H]. discriminate H.
Qed.

(** The [try] block on a task type that is well-formed UTF-8, and on one
    that is not. *)
Lemma queryAIEngine_try_valid x task_type o :
  valid_utf8 task_type = true ->
  queryAIEngine_try x task_type o
  = request_reply x (JObject [("task_type", JString task_type)]) o.
Proof.
  intros Hv. apply valid_utf8_true in Hv.
  unfold queryAIEngine_try, dump, bind at 1.
  now rewrite json_dump_error_request, Hv.
Qed.

Lemma queryAIEngine_try_invalid x task_type o text :
  string_dump_error task_type = Some text ->
  queryAIEngine_try x task_type o = (inl (json_exception text), o).
Proof.
  intros Hv. unfold queryAIEngine_try, dump, bind at 1.
  now rewrite json_dump_error_request, Hv.
Qed.

(** [queryAIEngine] touches neither the table, nor the ledger, nor the task
    channel. *)
Lemma queryAIEngine_frame x task_type o :
  let r := queryAIEngine x task_type o in
  robot_capabilities_ (snd r) = robot_capabilities_ o /\
  db_ (snd r) = db_ o /\
  task_published (snd r) = task_published o.
Proof.
  cbv zeta. unfold queryAIEngine, try_catch.
  destruct (string_dump_error task_type) as [text|] eqn:Hv.
  - rewrite (queryAIEngine_try_invalid _ _ _ _ Hv).
    unfold selectRobotByCapability, bind, modify, gets, throw, ret.
    destruct (String.eqb _ _); simpl; auto.
  - rewrite queryAIEngine_try_valid by now apply valid_utf8_true.
    unfold request_reply, selectRobotByCapability, bind, modify, gets,
      throw, ret.
    destruct x as [msg|msg| |msg|response]; simpl;
      repeat match goal with
             | |- context [if ?b then _ else _] => destruct b; simpl
             end; auto.
Qed.

(** On an advisory failure the outcome is the one of the fallback. *)
Lemma queryAIEngine_fallback x task_type o :
  advisory_fails x ->
  fst (queryAIEngine x task_type o) = fst (selectRobotByCapability task_type o).
Proof.
  intros Hfail. unfold queryAIEngine, try_catch.
  destruct (string_dump_error task_type) as [text|] eqn:Hv.
  { rewrite (queryAIEngine_try_invalid _ _ _ _ Hv).
    unfold selectRobotByCapability, bind, modify, gets, throw, ret.
    now destruct (String.eqb _ _). }
  rewrite queryAIEngine_try_valid by now apply valid_utf8_true.
  unfold request_reply, selectRobotByCapability, bind, modify, gets,
    throw, ret.
  destruct x as [msg|msg| |msg|response]; simpl in *;
    try (now destruct (String.eqb _ _)).
  destruct Hfail as [-> | Hns]; simpl.
  - now destruct (String.eqb _ _).
  - rewrite Hns, orb_true_r. simpl. now destruct (String.eqb _ _).
Qed.

(** A task type that cannot be serialised ends in the fallback as well,
    before anything is sent. *)
Lemma queryAIEngine_invalid x task_type o :
  valid_utf8 task_type = false ->
  fst (queryAIEngine x task_type o) = fst (selectRobotByCapability task_type o)
  /\ zmq_sent (snd (queryAIEngine x task_type o)) = zmq_sent o
  /\ exists line,
       cerr (snd (queryAIEngine x task_type o)) = (cerr o ++ [line])%list.
Proof.
  intros Hv. apply valid_utf8_false in Hv. destruct Hv as [text Hv].
  unfold queryAIEngine, try_catch.
  rewrite (queryAIEngine_try_invalid _ _ _ _ Hv).
  unfold selectRobotByCapability, bind, modify, gets, throw, ret.
  destruct (String.eqb _ _); simpl; repeat split; eexists; reflexivity.
Qed.

(** A well-formed recommendation is returned as it is. *)
Lemma queryAIEngine_recommends robot_id task_type o :
  valid_utf8 task_type = true ->
  queryAIEngine (recommends robot_id) task_type o
  = (inr robot_id, zmq_send (JObject [("task_type", JString task_type)]) o).
Proof.
  intros Hv. unfold queryAIEngine, try_catch.
  now rewrite queryAIEngine_try_valid.
Qed.

(** ** The checks, the store and the publication *)

Lemma capability_subscript_spec robot_id capability o caps :
  StdMap.find robot_id (robot_capabilities_ o) = Some caps ->
  exists table',
    capability_subscript robot_id capability o
    = (inr (strength_or_zero (robot_capabilities_ o) robot_id capability),
       set_capabilities table' o) /\
    grown_by robot_id capability true (robot_capabilities_ o) table'.
Proof.
  intros Hf. unfold capability_subscript, strength_or_zero, strength_of.
  unfold StdMap.subscript at 1. rewrite Hf.
  destruct (StdMap.subscript capability 0 caps) as [strength caps'] eqn:Hsub.
  exists (StdMap.insert robot_id caps' (robot_capabilities_ o)). split.
  - f_equal. f_equal.
    change strength with (fst (strength, caps')). rewrite <- Hsub.
    apply subscript_value.
  - intros r c. unfold strength_of. rewrite find_insert. simpl.
    destruct (String.eqb_spec r robot_id) as [->|Hne].
    + rewrite Hf. change caps' with (snd (strength, caps')).
      rewrite <- Hsub, find_subscript. reflexivity.
    + destruct (StdMap.find r (robot_capabilities_ o)) as [caps0|];
        [|reflexivity].
      now destruct (StdMap.find c caps0).
Qed.

Lemma grown_by_refl robot_id capability table :
  grown_by robot_id capability false table table.
Proof. intros r c. simpl. now destruct (strength_of table r c). Qed.

(** The two checks in sequence, followed by any continuation [k]: they
    throw exactly when the task type is one of the two and the strength read
    (0 when the robot does not list it) is below 50; otherwise [k] runs. *)
Lemma checks_spec task_type robot_id o caps :
  StdMap.find robot_id (robot_capabilities_ o) = Some caps ->
  exists table',
    grown_by robot_id task_type (checked_capability task_type)
      (robot_capabilities_ o) table' /\
    forall (A : Type) (k : M A),
      (check_minimum "heavy_lifting" task_type robot_id ;;;
       check_minimum "delicate_task" task_type robot_id ;;; k) o
      = if checked_capability task_type
           && (strength_or_zero (robot_capabilities_ o) robot_id task_type <? 50)
        then (inl (runtime_error ("Robot " ++ robot_id ++ " lacks sufficient "
                                  ++ task_type ++ " capability")),
              set_capabilities table' o)
        else k (set_capabilities table' o).
Proof.
  intros Hf. unfold checked_capability, check_minimum.
  destruct (String.eqb_spec task_type "heavy_lifting") as [->|Hhl].
  - destruct (capability_subscript_spec robot_id "heavy_lifting" o caps Hf)
      as (table' & Hsub & Hgrow).
    exists table'. split; [exact Hgrow|]. intros A k.
    unfold bind at 1 2. rewrite Hsub. simpl.
    now destruct (_ <? 50).
  - destruct (String.eqb_spec task_type "delicate_task") as [->|Hdt].
    + destruct (capability_subscript_spec robot_id "delicate_task" o caps Hf)
        as (table' & Hsub & Hgrow).
      exists table'. split; [exact Hgrow|]. intros A k.
      unfold bind at 1 2 3, ret at 1. rewrite Hsub. simpl.
      now destruct (_ <? 50).
    + exists (robot_capabilities_ o). split; [apply grown_by_refl|].
      intros A k. simpl. unfold bind, ret. now destruct o.
Qed.

(** [delegate_to] on a robot of the table, in full. *)
Lemma delegate_to_known w task_type robot_id o caps :
  StdMap.find robot_id (robot_capabilities_ o) = Some caps ->
  exists table',
    grown_by robot_id task_type (checked_capability task_type)
      (robot_capabilities_ o) table' /\
    delegate_to w task_type robot_id o
    = if checked_capability task_type
         && (strength_or_zero (robot_capabilities_ o) robot_id task_type <? 50)
      then (inl (runtime_error ("Robot " ++ robot_id ++ " lacks sufficient "
                                ++ task_type ++ " capability")),
            set_capabilities table' o)
      else
        match prepare_error (sqlite w), step_error (sqlite w) with
        | Some msg, _ =>
            (inl (runtime_error ("Failed to store task: "
                                 ++ "Failed to prepare insert statement: "
                                 ++ c_str msg)),
             set_capabilities table' o)
        | None, Some msg =>
            (inl (runtime_error ("Failed to store task: "
                                 ++ "Failed to insert task: " ++ c_str msg)),
             set_capabilities table' o)
        | None, None =>
            let stored :=
              set_db (ledger_insert (c_str task_type) (c_str robot_id)
                        "assigned" (current_timestamp w) (db_ o))
                (set_capabilities table' o) in
            match json_dump_error
                    (JObject [("robot_id", JString robot_id);
                              ("task_type", JString task_type)]) with
            | Some text => (inl (json_exception text), stored)
            | None =>
                (inr tt,
                 ros_publish (JObject [("robot_id", JString robot_id);
                                       ("task_type", JString task_type)])
                   stored)
            end
        end.
Proof.
  intros Hf.
  destruct (checks_spec task_type robot_id o caps Hf) as (table' & Hgrow & Hk).
  exists table'. split; [exact Hgrow|].
  unfold delegate_to. unfold bind at 1, gets at 1. rewrite Hf, Hk.
  destruct (checked_capability task_type && _); [reflexivity|].
  unfold storeTask, try_catch, dump, bind, modify, throw, ret.
  destruct (prepare_error (sqlite w)) as [msg|]; [reflexivity|].
  destruct (step_error (sqlite w)) as [msg|]; [reflexivity|].
  cbv zeta.
  now destruct (json_dump_error _).
Qed.

(** [delegate_to] on a robot the table does not hold. *)
Lemma delegate_to_unknown w task_type robot_id o :
  StdMap.find robot_id (robot_capabilities_ o) = None ->
  delegate_to w task_type robot_id o
  = (inl (runtime_error ("Robot " ++ robot_id ++ " not found")), o).
Proof.
  intros Hf. unfold delegate_to, bind, gets. now rewrite Hf.
Qed.

(** [delegateTask] on a non-empty task type, by the outcome of the query. *)
Lemma delegateTask_selected w task_type o robot_id o1 :
  task_type <> EmptyString ->
  queryAIEngine (ai_engine w) task_type o = (inr robot_id, o1) ->
  delegateTask w task_type o = delegate_to w task_type robot_id o1.
Proof.
  intros Hne Hq. unfold delegateTask.
  destruct (String.eqb_spec task_type EmptyString) as [->|_]; [now elim Hne|].
  unfold bind at 1, try_catch. now rewrite Hq.
Qed.

Lemma delegateTask_not_selected w task_type o e o1 :
  task_type <> EmptyString ->
  queryAIEngine (ai_engine w) task_type o = (inl e, o1) ->
  delegateTask w task_type o
  = (inl (runtime_error ("AI engine query failed: " ++ what e)), o1).
Proof.
  intros Hne Hq. unfold delegateTask.
  destruct (String.eqb_spec task_type EmptyString) as [->|_]; [now elim Hne|].
  unfold bind at 1, try_catch. now rewrite Hq.
Qed.

(** ** C6: the empty task type *)

(** C6: [delegateTask] on the empty task type throws [invalid_argument]
    (ValidationError) and leaves the whole object as it was: nothing is sent
    to the AI engine, no row is added to the ledger, nothing is published on
    the task channel, nothing is logged. *)
Theorem delegateTask_empty (w : World) (o : Orchestrator) :
  exists e, delegateTask w EmptyString o = (inl e, o) /\ ValidationError e.
Proof. eexists. split; reflexivity. Qed.

(** ** C1: the minimum-strength checks *)




(** ** C2: what a successful delegation leaves behind *)

(** C2, as stated, fails: [delegateTask] is declared [void].  Its result is
    the same for a delegation of [heavy_lifting] and one of [navigation], so
    no record can be read off it. *)
Lemma returns_task_record_counterexample : ~ returns_task_record.
Proof.
  intros [record_of H].
  pose (w := mkWorld RecvTimeout sqlite_ok "now").
  pose (o := new_Orchestrator (mkLedger [] 0)).
  destruct (H w "heavy_lifting" o tt _ eq_refl) as [_ H1].
  destruct (H w "navigation" o tt _ eq_refl) as [_ H2].
  rewrite H1 in H2. discriminate H2.
Qed.

(** C2, amended: for every non-empty task type on which no earlier step
    fails (a robot is selected, it is in the table, the applicable minimum
    is met) and for which the two SQLite calls succeed, task type and robot
    id being texts without NUL byte, [delegateTask] appends the row (next
    id, task type, selected robot, "assigned", current timestamp) to the
    ledger.  When robot id and task type are well-formed UTF-8 it then
    publishes the pair of robot and task type on the task channel and
    returns nothing: the new id is not read back and no record is handed to
    the caller.  When one of them is not, the serialisation of the message
    throws a JSON [type_error] after the row was appended, and nothing is
    published. *)
Theorem delegateTask_appends
  (w : World) (task_type : string) (o o1 : Orchestrator)
  (robot_id : string) (caps : StdMap.t Z) :
  task_type <> EmptyString ->
  queryAIEngine (ai_engine w) task_type o = (inr robot_id, o1) ->
  StdMap.find robot_id (robot_capabilities_ o) = Some caps ->
  (checked_capability task_type = true ->
   50 <= strength_or_zero (robot_capabilities_ o) robot_id task_type) ->
  sqlite w = sqlite_ok ->
  is_c_string task_type ->
  is_c_string robot_id ->
  let o' := snd (delegateTask w task_type o) in
  rows (db_ o')
  = (rows (db_ o) ++ [mkTaskRow (seq (db_ o) + 1) task_type robot_id
                        "assigned" (current_timestamp w)])%list /\
  seq (db_ o') = seq (db_ o) + 1 /\
  (valid_utf8 robot_id && valid_utf8 task_type = true ->
   fst (delegateTask w task_type o) = inr tt /\
   task_published o'
   = (task_published o ++ [JObject [("robot_id", JString robot_id);
                                    ("task_type", JString task_type)]])%list)
  /\
  (valid_utf8 robot_id && valid_utf8 task_type = false ->
   (exists text,
      fst (delegateTask w task_type o) = inl (json_exception text)) /\
   task_published o' = task_published o).
Proof.
  intros Hne Hq Hf Hmin Hsql Hct Hcr. unfold is_c_string in Hct, Hcr.
  pose proof (queryAIEngine_frame (ai_engine w) task_type o) as Hfr.
  rewrite Hq in Hfr. simpl in Hfr. destruct Hfr as (Ht & Hdb & Hpub).
  rewrite (delegateTask_selected _ _ _ _ _ Hne Hq).
  rewrite <- Ht in Hf, Hmin.
  destruct (delegate_to_known w task_type robot_id o1 caps Hf)
    as (table' & _ & ->).
  assert (Hpass : checked_capability task_type
                  && (strength_or_zero (robot_capabilities_ o1) robot_id
                        task_type <? 50) = false).
  { destruct (checked_capability task_type); [|reflexivity].
    simpl. apply Z.ltb_ge. now apply Hmin. }
  rewrite Hpass, Hsql, json_dump_error_task_data. unfold valid_utf8.
  destruct (string_dump_error robot_id) as [text|];
    [|destruct (string_dump_error task_type) as [text|]];
    simpl; rewrite Hdb, Hpub, Hct, Hcr;
    (split; [reflexivity|]); (split; [reflexivity|]);
    (split; intros H; try discriminate H);
    split; try reflexivity; eexists; reflexivity.
Qed.

(** The theorem on the scenario of section 8: initial table, oracle down,
    [heavy_lifting] goes to Ford. *)
Lemma delegateTask_appends_witness :
  let o' := snd (delegateTask (mkWorld RecvTimeout sqlite_ok "now")
                   "heavy_lifting" (new_Orchestrator (mkLedger [] 0))) in
  rows (db_ o') = [mkTaskRow 1 "heavy_lifting" "Ford" "assigned" "now"] /\
  seq (db_ o') = 1 /\
  fst (delegateTask (mkWorld RecvTimeout sqlite_ok "now")
         "heavy_lifting" (new_Orchestrator (mkLedger [] 0))) = inr tt /\
  task_published o' = [JObject [("robot_id", JString "Ford");
                                ("task_type", JString "heavy_lifting")]].
Proof.
  intros o'.
  destruct (delegateTask_appends (mkWorld RecvTimeout sqlite_ok "now")
              "heavy_lifting" (new_Orchestrator (mkLedger [] 0))
              (snd (queryAIEngine RecvTimeout "heavy_lifting"
                      (new_Orchestrator (mkLedger [] 0))))
              "Ford" [("heavy_lifting", 90); ("navigation", 70)])
    as (Hrows & Hseq & Hok & _).
  - discriminate.
  - reflexivity.
  - reflexivity.
  - intros _. vm_compute. discriminate.
  - reflexivity.
  - reflexivity.
  - reflexivity.
  - destruct (Hok eq_refl) as [Hres Hpub].
    repeat split; assumption.
Defined.

(** ** C3: the fallback on an advisory failure *)

(** [delegate_to] neither reads nor writes the advisory traffic and the
    diagnostics, and of the world it uses SQLite and the clock only. *)
Lemma delegate_to_passes s n task_type robot_id c d p :
  exists res c' d' p',
    forall a z e,
      delegate_to (mkWorld a s n) task_type robot_id (mkOrchestrator c d z p e)
      = (res, mkOrchestrator c' d' z p' e).
Proof.
  unfold delegate_to, dump. cbv zeta.
  set (task_data := JObject _).
  generalize (json_dump_error task_data) as err. intros err.
  unfold check_minimum, capability_subscript,
    storeTask, try_catch, bind, gets, modify, throw, ret. simpl.
  destruct (StdMap.find robot_id c);
    [|do 4 eexists; intros; simpl; reflexivity].
  destruct (String.eqb task_type "heavy_lifting");
    destruct (String.eqb task_type "delicate_task");
    repeat match goal with
           | |- context [StdMap.subscript ?k ?d ?m] =>
               destruct (StdMap.subscript k d m); simpl
           | |- context [?x <? 50] => destruct (x <? 50); simpl
           | |- context [prepare_error ?s] => destruct (prepare_error s); simpl
           | |- context [step_error ?s] => destruct (step_error s); simpl
           end;
    destruct err; simpl;
    do 4 eexists; intros; unfold set_capabilities, set_db, ros_publish;
    simpl; reflexivity.
Qed.

(** What [delegate_to] returns and what it does to the table, the ledger
    and the task channel depends on the object through these three alone,
    and on the world through SQLite and the clock alone. *)
Lemma delegate_to_same w1 w2 task_type robot_id o1 o2 :
  sqlite w1 = sqlite w2 ->
  current_timestamp w1 = current_timestamp w2 ->
  robot_capabilities_ o1 = robot_capabilities_ o2 ->
  db_ o1 = db_ o2 ->
  task_published o1 = task_published o2 ->
  same_delegation (delegate_to w1 task_type robot_id o1)
                  (delegate_to w2 task_type robot_id o2).
Proof.
  destruct o1 as [c1 d1 z1 p1 e1], o2 as [c2 d2 z2 p2 e2].
  destruct w1 as [a1 s1 n1], w2 as [a2 s2 n2]. simpl.
  intros -> -> -> -> ->.
  destruct (delegate_to_passes s2 n2 task_type robot_id c2 d2 p2)
    as (res & c' & d' & p' & H).
  rewrite (H a1 z1 e1), (H a2 z2 e2). now repeat split.
Qed.

(** C3, as stated, fails on a table whose best robot has the empty string
    as its id.  With the oracle timing out and the table [{"": {x: 5}}],
    robot [""] is capable of [x], yet [delegateTask "x"] fails with "No
    robot found" (NoCapableRobot): the fallback takes its empty result to
    mean that nothing was found. *)
Lemma advisory_fallback_empty_id_counterexample :
  let w := mkWorld RecvTimeout sqlite_ok "now" in
  let o := mkOrchestrator [(EmptyString, [("x", 5)])] (mkLedger [] 0) [] [] [] in
  advisory_fails (ai_engine w) /\
  StdMap.sorted (robot_capabilities_ o) /\
  capable (robot_capabilities_ o) "x" EmptyString 5 /\
  (exists e, fst (delegateTask w "x" o) = inl e /\ NoCapableRobot "x" e) /\
  ~ falls_back_as_specified w "x" o.
Proof.
  intros w o.
  assert (Hc : capable (robot_capabilities_ o) "x" EmptyString 5)
    by (split; [reflexivity | lia]).
  split; [exact I|]. split; [repeat constructor|]. split; [exact Hc|].
  split.
  - eexists. split; reflexivity.
  - intros [_ H]. apply (H _ eq_refl eq_refl EmptyString 5). exact Hc.
Qed.

(** C3, amended: when the advisory exchange fails (transport error on send
    or receive, no response, an unparsable response, or a response without
    a string [robot_id]), [delegateTask] on a non-empty task type and a
    well-formed table goes on with the best robot of the table for the task
    type (maximum positive strength, smallest id among equals), provided
    its id is not the empty string: that robot is what [queryAIEngine]
    returns, and the result of the call and its effect on table, ledger and
    task channel are those of the checks, the store and the publication for
    that robot, so nothing of the advisory error reaches the caller.  When
    no robot is capable, and also when the best robot's id is the empty
    string, the call fails with "No robot found" (NoCapableRobot), table,
    ledger and task channel untouched; and it fails with that error in
    these two cases only. *)
Theorem delegateTask_advisory_fallback
  (w : World) (task_type : string) (o : Orchestrator) :
  task_type <> EmptyString ->
  advisory_fails (ai_engine w) ->
  StdMap.sorted (robot_capabilities_ o) ->
  (forall r,
     best_robot (robot_capabilities_ o) task_type r -> r <> EmptyString ->
     fst (queryAIEngine (ai_engine w) task_type o) = inr r /\
     same_delegation (delegateTask w task_type o)
       (delegate_to w task_type r o)) /\
  (forall r,
     fst (queryAIEngine (ai_engine w) task_type o) = inr r ->
     best_robot (robot_capabilities_ o) task_type r) /\
  ((forall r s, ~ capable (robot_capabilities_ o) task_type r s) \/
   best_robot (robot_capabilities_ o) task_type EmptyString ->
   exists e, fst (delegateTask w task_type o) = inl e /\
             NoCapableRobot task_type e /\
             robot_capabilities_ (snd (delegateTask w task_type o))
             = robot_capabilities_ o /\
             db_ (snd (delegateTask w task_type o)) = db_ o /\
             task_published (snd (delegateTask w task_type o))
             = task_published o) /\
  (forall e,
     fst (delegateTask w task_type o) = inl e ->
     NoCapableRobot task_type e ->
     (forall r s, ~ capable (robot_capabilities_ o) task_type r s) \/
     best_robot (robot_capabilities_ o) task_type EmptyString).
Proof.
  intros Hne Hfail Hs.
  pose proof (queryAIEngine_fallback _ task_type o Hfail) as Hfb.
  pose proof (queryAIEngine_frame (ai_engine w) task_type o) as Hfr.
  cbv zeta in Hfr. destruct Hfr as (Ht & Hdb & Hpub).
  pose proof (select_loop_best _ task_type Hs) as Hloop. cbv zeta in Hloop.
  (* the outcome of the fallback, by the pair the loop ends with *)
  assert (Hsel : fst (selectRobotByCapability task_type o)
                 = if String.eqb (fst (select_loop task_type
                                         (robot_capabilities_ o)
                                         (EmptyString, 0))) EmptyString
                   then inl (runtime_error
                               ("No robot found with capability: "
                                ++ task_type))
                   else inr (fst (select_loop task_type
                                    (robot_capabilities_ o)
                                    (EmptyString, 0)))).
  { unfold selectRobotByCapability, bind, gets, throw, ret.
    now destruct (String.eqb _ _). }
  rewrite Hsel in Hfb. clear Hsel.
  set (best := select_loop task_type (robot_capabilities_ o) (EmptyString, 0))
    in *.
  (* a failed selection, as the caller sees it *)
  assert (Hthrows : String.eqb (fst best) EmptyString = true ->
            exists e, fst (delegateTask w task_type o) = inl e /\
              NoCapableRobot task_type e /\
              robot_capabilities_ (snd (delegateTask w task_type o))
              = robot_capabilities_ o /\
              db_ (snd (delegateTask w task_type o)) = db_ o /\
              task_published (snd (delegateTask w task_type o))
              = task_published o).
  { intros Hempty. rewrite Hempty in Hfb.
    destruct (queryAIEngine (ai_engine w) task_type o) as [res o1] eqn:Hq.
    simpl in Hfb, Ht, Hdb, Hpub. subst res.
    rewrite (delegateTask_not_selected _ _ _ _ _ Hne Hq). simpl.
    eexists. split; [reflexivity|]. now repeat split. }
  (* a selection that returned, as the caller sees it *)
  assert (Hreturns : String.eqb (fst best) EmptyString = false ->
            fst (queryAIEngine (ai_engine w) task_type o) = inr (fst best) /\
            delegateTask w task_type o
            = delegate_to w task_type (fst best)
                (snd (queryAIEngine (ai_engine w) task_type o))).
  { intros Hempty. rewrite Hempty in Hfb. split; [exact Hfb|].
    destruct (queryAIEngine (ai_engine w) task_type o) as [res o1] eqn:Hq.
    simpl in Hfb. subst res.
    now rewrite (delegateTask_selected _ _ _ _ _ Hne Hq). }
  split; [|split; [|split]].
  - intros r Hbest Hr.
    destruct Hloop as [[_ Hnone]|[Hb _]].
    { destruct Hbest as (s & Hc & _). now apply Hnone in Hc. }
    rewrite (best_robot_unique _ _ _ _ Hbest Hb) in *.
    destruct (String.eqb_spec (fst best) EmptyString) as [Heq|_];
      [contradiction|].
    destruct (Hreturns eq_refl) as [Hq ->]. split; [exact Hq|].
    apply delegate_to_same; try reflexivity; assumption.
  - intros r Hr.
    destruct (String.eqb_spec (fst best) EmptyString) as [Heq|Hneq].
    { rewrite Hr in Hfb. discriminate Hfb. }
    rewrite Hr in Hfb. injection Hfb as ->.
    destruct Hloop as [[Heq _]|[Hb _]]; [|exact Hb].
    rewrite Heq in Hneq. now elim Hneq.
  - intros Hcase. apply Hthrows.
    destruct Hloop as [[-> _]|[Hb Hc]]; [reflexivity|].
    destruct Hcase as [Hnone|Hbest]; [now apply Hnone in Hc|].
    now rewrite <- (best_robot_unique _ _ _ _ Hbest Hb).
  - intros e He Hno.
    destruct (String.eqb_spec (fst best) EmptyString) as [Heq|Hneq].
    { destruct Hloop as [[_ Hnone]|[Hb _]]; [now left|].
      right. now rewrite <- Heq. }
    exfalso.
    destruct Hloop as [[Heq _]|[_ [Hc _]]];
      [rewrite Heq in Hneq; now elim Hneq|].
    destruct (Hreturns eq_refl) as [_ Hd]. rewrite Hd in He. clear Hd.
    unfold strength_of in Hc. rewrite <- Ht in Hc.
    destruct (StdMap.find (fst best) (robot_capabilities_
                (snd (queryAIEngine (ai_engine w) task_type o))))
      as [caps|] eqn:Hf; [|discriminate Hc].
    destruct (delegate_to_known w task_type (fst best) _ caps Hf)
      as (table' & _ & Hk).
    rewrite Hk in He. clear Hk. unfold NoCapableRobot in Hno.
    destruct (checked_capability task_type && _);
      [simpl in He; injection He as <-; discriminate Hno|].
    destruct (prepare_error (sqlite w));
      [simpl in He; injection He as <-; discriminate Hno|].
    destruct (step_error (sqlite w));
      [simpl in He; injection He as <-; discriminate Hno|].
    cbv zeta in He. destruct (json_dump_error _); simpl in He;
      [injection He as <-; discriminate Hno | discriminate He].
Qed.

(** The theorem on the scenarios of section 8 with the oracle timing out:
    [heavy_lifting] is delegated to Ford, the best lifter of the initial
    table, and [unknown_capability] fails with NoCapableRobot. *)
Lemma delegateTask_advisory_fallback_witness :
  let w := mkWorld RecvTimeout sqlite_ok "now" in
  let o := new_Orchestrator (mkLedger [] 0) in
  (fst (queryAIEngine (ai_engine w) "heavy_lifting" o) = inr "Ford" /\
   same_delegation (delegateTask w "heavy_lifting" o)
     (delegate_to w "heavy_lifting" "Ford" o))
  /\
  exists e, fst (delegateTask w "unknown_capability" o) = inl e /\
            NoCapableRobot "unknown_capability" e.
Proof.
  intros w o.
  assert (Hs : StdMap.sorted (robot_capabilities_ o)) by repeat constructor.
  split.
  - apply (proj1 (delegateTask_advisory_fallback w "heavy_lifting" o
                    ltac:(discriminate) I Hs)).
    + exists 90. split; [split; [reflexivity | lia]|].
      intros r' s' Hc. capable_cases Hc. right. now split.
    + discriminate.
  - destruct (proj1 (proj2 (proj2 (delegateTask_advisory_fallback w
                                     "unknown_capability" o
                                     ltac:(discriminate) I Hs))))
      as (e & He & Hno & _).
    + left. intros r s Hc. capable_cases Hc.
    + exists e. now split.
Defined.

(** ** The ledger *)

Lemma to_int32_int z : is_int z -> to_int32 z = z.
Proof.
  unfold is_int, to_int32. intros H.
  rewrite Z.mod_small; lia.
Qed.

Lemma ledger_select_none task_id l :
  (forall r, In r (rows l) -> row_id r <> task_id) ->
  ledger_select task_id l = [].
Proof.
  unfold ledger_select. induction (rows l) as [|r rs IH]; simpl; intros H.
  - reflexivity.
  - destruct (Z.eqb_spec (row_id r) task_id) as [Heq|_].
    + exfalso. apply (H r); [now left | exact Heq].
    + apply IH. intros r' Hin. apply H. now right.
Qed.


(** An insertion keeps the ledger well formed: ids stay unique and bounded
    by the counter, and the new id is larger than every id before it. *)
Lemma ledger_insert_wf task_type robot_id status now l :
  ledger_wf l -> ledger_wf (ledger_insert task_type robot_id status now l).
Proof.
  intros [Hle Hnd]. unfold ledger_wf, ledger_insert. simpl. split.
  - apply Forall_app. split.
    + eapply Forall_impl; [|exact Hle]. simpl. intros r Hr. lia.
    + constructor; [simpl; lia | constructor].
  - rewrite map_app. simpl.
    apply NoDup_app; [exact Hnd | repeat constructor; intros [] |].
    intros id Hin [<-|[]].
    apply in_map_iff in Hin as (r & Hid & Hin).
    rewrite Forall_forall in Hle. specialize (Hle r Hin). lia.
Qed.

(** Inserts made one after the other issue consecutive ids: [n] of them on
    a ledger whose counter is [c] issue [c + 1], ..., [c + n], in this
    order. *)
Lemma ledger_consecutive_ids (entries : list (string * string * string * string)) :
  forall l,
    let l' := fold_left
                (fun acc e =>
                   ledger_insert (fst (fst (fst e))) (snd (fst (fst e)))
                     (snd (fst e)) (snd e) acc)
                entries l in
    seq l' = seq l + Z.of_nat (length entries) /\
    map row_id (rows l')
    = (map row_id (rows l)
       ++ map (fun i => seq l + Z.of_nat i) (List.seq 1 (length entries)))%list.
Proof.
  induction entries as [|e entries IH]; intros l; simpl.
  - split; [lia | now rewrite app_nil_r].
  - destruct (IH (ledger_insert (fst (fst (fst e))) (snd (fst (fst e)))
                    (snd (fst e)) (snd e) l)) as [Hseq Hids].
    cbv zeta in Hseq, Hids. simpl in Hseq, Hids. split; [lia|].
    rewrite Hids, map_app, <- app_assoc. apply f_equal.
    cbn [map app List.seq length row_id]. apply f_equal2; [lia|].
    rewrite <- (seq_shift (length entries) 1), map_map.
    apply map_ext. intros i. lia.
Qed.

(** What a successful [delegateTask] has done. *)
Lemma delegateTask_success w task_type o o' :
  delegateTask w task_type o = (inr tt, o') ->
  task_type <> EmptyString /\
  exists robot_id o1,
    queryAIEngine (ai_engine w) task_type o = (inr robot_id, o1) /\
    StdMap.find robot_id (robot_capabilities_ o) <> None /\
    db_ o' = ledger_insert (c_str task_type) (c_str robot_id) "assigned"
               (current_timestamp w) (db_ o) /\
    task_published o'
    = (task_published o ++ [JObject [("robot_id", JString robot_id);
                                     ("task_type", JString task_type)]])%list /\
    (checked_capability task_type = true ->
     50 <= strength_or_zero (robot_capabilities_ o) robot_id task_type) /\
    grown_by robot_id task_type (checked_capability task_type)
      (robot_capabilities_ o) (robot_capabilities_ o').
Proof.
  intros H.
  assert (Hne : task_type <> EmptyString).
  { intros ->. discriminate H. }
  split; [exact Hne|].
  pose proof (queryAIEngine_frame (ai_engine w) task_type o) as Hfr.
  destruct (queryAIEngine (ai_engine w) task_type o) as [[e|robot_id] o1] eqn:Hq.
  - rewrite (delegateTask_not_selected _ _ _ _ _ Hne Hq) in H. discriminate H.
  - simpl in Hfr. destruct Hfr as (Ht & Hdb & Hpub).
    rewrite (delegateTask_selected _ _ _ _ _ Hne Hq) in H.
    exists robot_id, o1. split; [reflexivity|].
    destruct (StdMap.find robot_id (robot_capabilities_ o1)) as [caps|] eqn:Hf.
    + rewrite <- Ht, Hf. split; [discriminate|].
      destruct (delegate_to_known w task_type robot_id o1 caps Hf)
        as (table' & Hgrow & Hd).
      rewrite Hd in H. clear Hd.
      destruct (checked_capability task_type) eqn:Hchk; simpl in H.
      * destruct (Z.ltb_spec
                    (strength_or_zero (robot_capabilities_ o1) robot_id
                       task_type) 50) as [_|Hge]; [discriminate H|].
        destruct (prepare_error (sqlite w)); [discriminate H|].
        destruct (step_error (sqlite w)); [discriminate H|].
        cbv zeta in H.
        destruct (string_dump_error robot_id); [discriminate H|].
        destruct (string_dump_error task_type); [discriminate H|].
        injection H as <-. simpl. rewrite Hdb, Hpub. now repeat split.
      * destruct (prepare_error (sqlite w)); [discriminate H|].
        destruct (step_error (sqlite w)); [discriminate H|].
        cbv zeta in H.
        destruct (string_dump_error robot_id); [discriminate H|].
        destruct (string_dump_error task_type); [discriminate H|].
        injection H as <-. simpl. rewrite Hdb, Hpub.
        repeat split; [discriminate | exact Hgrow].
    + rewrite (delegate_to_unknown _ _ _ _ Hf) in H. discriminate H.
Qed.

(** ** C7: reading a task back *)




(** ** C8: loading the drivers at startup *)

Lemma find_not_in_keys {V : Type} (k : string) (m : StdMap.t V) :
  ~ In k (StdMap.keys m) -> StdMap.find k m = None.
Proof.
  induction m as [|[k' v'] m IH]; simpl; [reflexivity|].
  intros H. destruct (String.eqb_spec k k') as [->|_].
  - exfalso. apply H. now left.
  - apply IH. intros Hin. apply H. now right.
Qed.

(** One pass of the loop body never throws, touches the handles only, and
    adds the handle of its robot exactly when the driver file exists and
    [dlopen] succeeds on it. *)
Lemma load_entry_spec ld robot_id driver_path r :
  exists r',
    load_entry ld (robot_id, driver_path) r = (inr tt, r') /\
    robot_driver_map_ r' = robot_driver_map_ r /\
    robot_language_map_ r' = robot_language_map_ r /\
    forall k,
      StdMap.find k (driver_handles_ r')
      = match (if fs_exists ld driver_path then dlopen ld (c_str driver_path)
               else inl EmptyString) with
        | inr h => if String.eqb k robot_id then Some h
                   else StdMap.find k (driver_handles_ r)
        | inl _ => StdMap.find k (driver_handles_ r)
        end.
Proof.
  unfold load_entry, loadDriver, try_catch, bind, modify, throw, ret.
  destruct (fs_exists ld driver_path); simpl.
  - destruct (dlopen ld (c_str driver_path)) as [err|h]; simpl.
    + eexists. repeat split.
    + eexists. split; [reflexivity|]. simpl. repeat split.
      intros k. apply find_insert.
  - eexists. repeat split.
Qed.

(** The whole loop over a driver map: it runs to its end whatever fails, and
    afterwards a configured robot has a handle exactly when its own driver
    loaded (or it had one before the loop). *)
Lemma load_loop_spec ld (drivers : StdMap.t string) :
  NoDup (StdMap.keys drivers) ->
  forall r, exists r',
    for_each (load_entry ld) drivers r = (inr tt, r') /\
    robot_driver_map_ r' = robot_driver_map_ r /\
    robot_language_map_ r' = robot_language_map_ r /\
    forall k,
      StdMap.find k (driver_handles_ r')
      = match StdMap.find k drivers with
        | Some driver_path =>
            match (if fs_exists ld driver_path then dlopen ld (c_str driver_path)
                   else inl EmptyString) with
            | inr h => Some h
            | inl _ => StdMap.find k (driver_handles_ r)
            end
        | None => StdMap.find k (driver_handles_ r)
        end.
Proof.
  induction drivers as [|[robot_id driver_path] rest IH]; intros Hnd r.
  - exists r. simpl. repeat split.
  - simpl in Hnd. apply NoDup_cons_iff in Hnd as [Hnotin Hnd].
    destruct (load_entry_spec ld robot_id driver_path r)
      as (r1 & Hload & Hd1 & Hl1 & Hh1).
    destruct (IH Hnd r1) as (r' & Hloop & Hd & Hl & Hh).
    exists r'. cbn [for_each]. unfold bind at 1. rewrite Hload.
    split; [exact Hloop|]. split; [congruence|]. split; [congruence|].
    intros k. rewrite Hh, Hh1. simpl.
    destruct (String.eqb_spec k robot_id) as [->|Hne].
    + rewrite (find_not_in_keys _ _ Hnotin).
      now destruct (if fs_exists ld driver_path then _ else _).
    + destruct (StdMap.find k rest) as [path|].
      * destruct (if fs_exists ld path then _ else _); [|reflexivity].
        now destruct (if fs_exists ld driver_path then _ else _).
      * now destruct (if fs_exists ld driver_path then _ else _).
Qed.

(** C8: whatever the file system and the loader answer, the constructor of
    [RobotInterface] runs to its end, and afterwards every robot of the
    configured driver map is available exactly when its own driver loads:
    a robot whose driver file is missing or whose [dlopen] fails is not
    available, and every robot whose driver loads is, whatever happened to
    the others. *)
Theorem startup_tolerates_load_failures (ld : Loader) :
  fst (RobotInterface_ctor ld (mkRobotInterface [] [] [] [] [] [])) = inr tt /\
  forall robot_id driver_path,
    StdMap.find robot_id (robot_driver_map_ (new_RobotInterface ld))
    = Some driver_path ->
    (loads ld driver_path ->
     isRobotAvailable (new_RobotInterface ld) robot_id = true) /\
    (~ loads ld driver_path ->
     isRobotAvailable (new_RobotInterface ld) robot_id = false).
Proof.
  unfold new_RobotInterface.
  set (blank := mkRobotInterface [] [] [] [] [] []).
  set (r0 := snd (initRobotMappings blank)).
  assert (Hctor : RobotInterface_ctor ld blank
                  = for_each (load_entry ld) (robot_driver_map_ r0) r0)
    by reflexivity.
  destruct (load_loop_spec ld (robot_driver_map_ r0)) with (r := r0)
    as (r' & Hloop & Hd & Hl & Hh).
  { repeat constructor; simpl; intuition discriminate. }
  rewrite Hctor, Hloop. simpl. split; [reflexivity|].
  intros robot_id driver_path Hcfg. rewrite Hd in Hcfg.
  unfold isRobotAvailable, loads. rewrite Hh, Hl, Hcfg.
  assert (Hlang : StdMap.find robot_id (robot_language_map_ r0) <> None).
  { revert Hcfg. simpl.
    destruct (String.eqb robot_id "Ford"); [discriminate|].
    destruct (String.eqb robot_id "Scion"); discriminate. }
  destruct (StdMap.find robot_id (robot_language_map_ r0)); [|now elim Hlang].
  destruct (fs_exists ld driver_path).
  - destruct (dlopen ld (c_str driver_path)) as [err|h]; simpl; split.
    + intros [_ [h' Hh']]. discriminate Hh'.
    + reflexivity.
    + reflexivity.
    + intros Hno. exfalso. apply Hno. split; [reflexivity|]. now exists h.
  - simpl. split; [intros [Hex _]; discriminate Hex | reflexivity].
Qed.

(** The theorem on a start where Scion's driver file is missing and Ford's
    loads: Ford is available, Scion is not. *)
Lemma startup_tolerates_load_failures_witness :
  let ld := mkLoader
              (fun path => String.eqb path "backend/c/drivers/ford_driver.so")
              (fun _ => inr 7%nat)
              (fun _ _ => inl "undefined symbol") in
  isRobotAvailable (new_RobotInterface ld) "Ford" = true /\
  isRobotAvailable (new_RobotInterface ld) "Scion" = false.
Proof.
  intros ld. split.
  - apply (proj2 (startup_tolerates_load_failures ld) "Ford"
             "backend/c/drivers/ford_driver.so").
    + reflexivity.
    + split; [reflexivity|]. now exists 7%nat.
  - apply (proj2 (startup_tolerates_load_failures ld) "Scion"
             "backend/assembly/drivers/scion_driver.so").
    + reflexivity.
    + intros [Hex _]. discriminate Hex.
Defined.

(** ** Texts in buffers *)

Lemma substring_whole (s : string) : forall n : nat,
  (String.length s <= n)%nat -> substring 0 n s = s.
Proof.
  induction s as [|c s IH]; intros [|n] H; simpl in *; try reflexivity.
  - lia.
  - f_equal. apply IH. lia.
Qed.

Lemma substring_length_le (s : string) : forall n : nat,
  (String.length (substring 0 n s) <= n)%nat.
Proof.
  induction s as [|c s IH]; intros [|n]; simpl; try lia.
  specialize (IH n). lia.
Qed.

Lemma string_length_app (s1 s2 : string) :
  String.length (s1 ++ s2) = (String.length s1 + String.length s2)%nat.
Proof. induction s1 as [|c s1 IH]; simpl; [reflexivity | now rewrite IH]. Qed.

Lemma string_app_assoc (s1 s2 s3 : string) :
  (s1 ++ s2) ++ s3 = s1 ++ s2 ++ s3.
Proof. induction s1 as [|c s1 IH]; simpl; [reflexivity | now rewrite IH]. Qed.

Lemma strncpy_field_nonempty (size : nat) (src : string) :
  (2 <= size)%nat -> c_str src <> EmptyString ->
  String.length (strncpy_field size src) <> 0%nat.
Proof.
  unfold strncpy_field. intros Hsize Hne.
  destruct (c_str src) as [|c s]; [now elim Hne|].
  destruct size as [|[|size]]; simpl; lia.
Qed.

(** ** C5: dispatch to a robot *)

(** The translation step succeeds on the four dialects, with the command
    shaped as the dialect, [_EXEC(], the task and [)], and throws on every
    other language. *)
Lemma translate_spec lang task_data (r : RobotInterface) :
  (supported_dialect lang ->
   translate lang task_data r = (inr (lang ++ "_EXEC(" ++ task_data ++ ")"), r))
  /\
  (~ supported_dialect lang ->
   translate lang task_data r
   = (inl (runtime_error ("Unsupported robot language: " ++ lang)), r)).
Proof.
  unfold translate, supported_dialect, throw, ret. split.
  - intros [->|[->|[->| ->]]]; reflexivity.
  - intros Hno.
    destruct (String.eqb_spec lang "KRL") as [->|_]; [elim Hno; tauto|].
    destruct (String.eqb_spec lang "RAPID") as [->|_]; [elim Hno; tauto|].
    destruct (String.eqb_spec lang "KAREL") as [->|_]; [elim Hno; tauto|].
    destruct (String.eqb_spec lang "VAL3") as [->|_]; [elim Hno; tauto|].
    reflexivity.
Qed.

(** C5: [sendToRobot] throws "No driver loaded" (UnknownRobot) when the
    robot has no loaded driver; throws "Unsupported robot language"
    (UnknownDialect) when the robot's configured language is none of KRL,
    RAPID, KAREL, VAL3; and otherwise calls the driver's [execute_task]
    once, on the command made of the dialect, [_EXEC(], the task type and
    [)], publishing the response when the driver returns 0 and throwing
    with the driver's response otherwise.  In particular, with the backend
    of section 4.4 behind a robot configured for KRL, [heavy_lifting] is
    executed successfully and the response published contains
    [KRL_EXEC(heavy_lifting)]. *)
Theorem sendToRobot_dispatch (ld : Loader) (r : RobotInterface) :
  (forall robot_id task_type,
     StdMap.find robot_id (driver_handles_ r) = None ->
     exists e, sendToRobot ld robot_id task_type r = (inl e, r) /\
               NoDriverLoaded robot_id e)
  /\
  (forall robot_id task_type h lang,
     StdMap.find robot_id (driver_handles_ r) = Some h ->
     StdMap.find robot_id (robot_language_map_ r) = Some lang ->
     ~ supported_dialect lang ->
     exists e, sendToRobot ld robot_id task_type r = (inl e, r) /\
               UnknownDialect lang e)
  /\
  (forall robot_id task_type h lang execute,
     StdMap.find robot_id (driver_handles_ r) = Some h ->
     StdMap.find robot_id (robot_language_map_ r) = Some lang ->
     supported_dialect lang ->
     dlsym ld h "execute_task" = inr execute ->
     let command := lang ++ "_EXEC(" ++ task_type ++ ")" in
     let answer := execute (c_str command) 256%nat in
     let r1 := record_call h (c_str command) r in
     sendToRobot ld robot_id task_type r
     = if fst answer =? 0
       then (inr tt, publish_response (snd answer) r1)
       else (inl (runtime_error ("Driver execution failed for robot "
                                 ++ robot_id ++ ": " ++ snd answer)), r1))
  /\
  (forall robot_id h,
     StdMap.find robot_id (driver_handles_ r) = Some h ->
     StdMap.find robot_id (robot_language_map_ r) = Some "KRL" ->
     dlsym ld h "execute_task" = inr (execute_task robot_id "KRL") ->
     c_str robot_id <> EmptyString ->
     exists r' response,
       sendToRobot ld robot_id "heavy_lifting" r = (inr tt, r') /\
       responses_published r' = (responses_published r ++ [response])%list /\
       driver_calls r'
       = (driver_calls r ++ [(h, "KRL_EXEC(heavy_lifting)")])%list /\
       contains response "KRL_EXEC(heavy_lifting)").
Proof.
  assert (Hrun : forall robot_id task_type h lang execute,
     StdMap.find robot_id (driver_handles_ r) = Some h ->
     StdMap.find robot_id (robot_language_map_ r) = Some lang ->
     supported_dialect lang ->
     dlsym ld h "execute_task" = inr execute ->
     sendToRobot ld robot_id task_type r
     = if fst (execute (c_str (lang ++ "_EXEC(" ++ task_type ++ ")")) 256%nat)
          =? 0
       then (inr tt,
             publish_response
               (snd (execute (c_str (lang ++ "_EXEC(" ++ task_type ++ ")"))
                       256%nat))
               (record_call h (c_str (lang ++ "_EXEC(" ++ task_type ++ ")")) r))
       else (inl (runtime_error
                    ("Driver execution failed for robot " ++ robot_id ++ ": "
                     ++ snd (execute
                               (c_str (lang ++ "_EXEC(" ++ task_type ++ ")"))
                               256%nat))),
             record_call h (c_str (lang ++ "_EXEC(" ++ task_type ++ ")")) r)).
  { intros robot_id task_type h lang execute Hh Hl Hsup Hsym.
    unfold sendToRobot. unfold bind at 1, gets at 1. rewrite Hh.
    unfold bind at 1, gets at 1. rewrite Hl.
    unfold bind at 1. rewrite (proj1 (translate_spec lang task_type r) Hsup).
    unfold bind at 1, getDriverFunction.
    change (c_str "execute_task") with "execute_task".
    rewrite Hsym. unfold ret at 1.
    destruct (execute _ _) as [result response]. simpl.
    unfold bind, modify, throw.
    now destruct (result =? 0). }
  repeat split.
  - intros robot_id task_type Hh. unfold sendToRobot, bind, gets, throw.
    rewrite Hh. eexists. split; reflexivity.
  - intros robot_id task_type h lang Hh Hl Hno.
    unfold sendToRobot. unfold bind at 1, gets at 1. rewrite Hh.
    unfold bind at 1, gets at 1. rewrite Hl.
    unfold bind at 1. rewrite (proj2 (translate_spec lang task_type r) Hno).
    eexists. split; reflexivity.
  - exact Hrun.
  - intros robot_id h Hh Hl Hsym Hid.
    rewrite (Hrun robot_id "heavy_lifting" h "KRL" _ Hh Hl
               (or_introl eq_refl) Hsym).
    assert (Hsize : (2 <= 32)%nat) by lia.
    pose proof (strncpy_field_nonempty 32 robot_id Hsize Hid) as Hlen.
    assert (Hshort : (String.length (strncpy_field 32 robot_id) <= 31)%nat)
      by apply (substring_length_le (c_str robot_id) 31).
    unfold execute_task, Driver.validate_command. simpl Driver.robot_id.
    apply Nat.eqb_neq in Hlen. rewrite Hlen.
    change (c_str ("KRL" ++ "_EXEC(" ++ "heavy_lifting" ++ ")"))
      with "KRL_EXEC(heavy_lifting)".
    change (strncpy_field 16 "KRL") with "KRL".
    change (strncpy_field Driver.MAX_COMMAND_LENGTH "KRL_EXEC(heavy_lifting)")
      with "KRL_EXEC(heavy_lifting)".
    cbn -[snprintf strncpy_field String.append].
    set (text := "KRL" ++ " executed for " ++ strncpy_field 32 robot_id
                 ++ ": " ++ "KRL_EXEC(heavy_lifting)").
    assert (Htext : (String.length text <= 73)%nat).
    { unfold text. rewrite !string_length_app.
      revert Hshort. generalize (String.length (strncpy_field 32 robot_id)).
      intros n Hn. simpl. lia. }
    unfold snprintf, Driver.MAX_RESPONSE_LENGTH.
    rewrite (substring_whole text (512 - 1)) by lia.
    rewrite (substring_whole text (256 - 1)) by lia.
    eexists. exists text. split; [reflexivity|]. simpl.
    repeat split.
    exists ("KRL executed for " ++ strncpy_field 32 robot_id ++ ": "),
      EmptyString.
    unfold text. generalize (strncpy_field 32 robot_id). intros s.
    rewrite !string_app_assoc. reflexivity.
Qed.

(** The theorem on the scenarios of section 8: only Ford's driver is loaded
    and it is the backend of section 4.4; a task for Scion is refused, a
    robot configured for an unknown language is refused, and Ford executes
    [heavy_lifting]. *)
Lemma sendToRobot_dispatch_witness :
  let ld := mkLoader
              (fun path => String.eqb path "backend/c/drivers/ford_driver.so")
              (fun _ => inr 7%nat)
              (fun _ name => if String.eqb name "execute_task"
                             then inr (execute_task "Ford" "KRL")
                             else inl "undefined symbol") in
  let r := new_RobotInterface ld in
  let odd := mkRobotInterface [("Ford", 7%nat)] [] [("Ford", "URScript")]
               [] [] [] in
  (exists e, sendToRobot ld "Scion" "x" r = (inl e, r) /\
             NoDriverLoaded "Scion" e)
  /\
  (exists e, sendToRobot ld "Ford" "x" odd = (inl e, odd) /\
             UnknownDialect "URScript" e)
  /\
  (exists r' response,
     sendToRobot ld "Ford" "heavy_lifting" r = (inr tt, r') /\
     responses_published r' = [response] /\
     driver_calls r' = [(7%nat, "KRL_EXEC(heavy_lifting)")] /\
     contains response "KRL_EXEC(heavy_lifting)").
Proof.
  intros ld r odd. split; [|split].
  - apply (proj1 (sendToRobot_dispatch ld r) "Scion" "x"). reflexivity.
  - apply (proj1 (proj2 (sendToRobot_dispatch ld odd)) "Ford" "x" 7%nat).
    + reflexivity.
    + reflexivity.
    + intros [H|[H|[H|H]]]; discriminate H.
  - apply (proj2 (proj2 (proj2 (sendToRobot_dispatch ld r))) "Ford" 7%nat).
    + reflexivity.
    + reflexivity.
    + reflexivity.
    + discriminate.
Defined.

(** ** C9: what [delegateTask] does to the capability table *)

(** Whatever happens, [delegateTask] keeps every listed strength; the only
    change it can make to the table is to add one capability, with strength
    0, to one robot. *)
Lemma delegateTask_capabilities_grow w task_type o :
  exists robot_id grows,
    grown_by robot_id task_type grows (robot_capabilities_ o)
      (robot_capabilities_ (snd (delegateTask w task_type o))).
Proof.
  destruct (String.eqb_spec task_type EmptyString) as [->|Hne].
  { exists EmptyString, false. apply grown_by_refl. }
  pose proof (queryAIEngine_frame (ai_engine w) task_type o) as Hfr.
  destruct (queryAIEngine (ai_engine w) task_type o) as [[e|robot_id] o1] eqn:Hq;
    simpl in Hfr; destruct Hfr as (Ht & _ & _).
  - rewrite (delegateTask_not_selected _ _ _ _ _ Hne Hq). simpl.
    rewrite Ht. exists EmptyString, false. apply grown_by_refl.
  - rewrite (delegateTask_selected _ _ _ _ _ Hne Hq). rewrite <- Ht.
    destruct (StdMap.find robot_id (robot_capabilities_ o1)) as [caps|] eqn:Hf.
    + destruct (delegate_to_known w task_type robot_id o1 caps Hf)
        as (table' & Hgrow & ->).
      exists robot_id, (checked_capability task_type).
      destruct (checked_capability task_type && _); [exact Hgrow|].
      destruct (prepare_error (sqlite w)); [exact Hgrow|].
      destruct (step_error (sqlite w)); [exact Hgrow|].
      cbv zeta. destruct (json_dump_error _); exact Hgrow.
    + rewrite (delegate_to_unknown _ _ _ _ Hf). simpl.
      exists EmptyString, false. apply grown_by_refl.
Qed.

Lemma delegateTask_keeps_strengths w task_type o r c s :
  strength_of (robot_capabilities_ o) r c = Some s ->
  strength_of (robot_capabilities_ (snd (delegateTask w task_type o))) r c
  = Some s.
Proof.
  intros H. destruct (delegateTask_capabilities_grow w task_type o)
    as (robot_id & grows & Hgrow).
  now rewrite Hgrow, H.
Qed.

(** A delegation that succeeds leaves the table as it was. *)
Lemma delegateTask_success_same_capabilities w task_type o o' :
  delegateTask w task_type o = (inr tt, o') ->
  same_capabilities (robot_capabilities_ o) (robot_capabilities_ o').
Proof.
  intros H. destruct (delegateTask_success _ _ _ _ H)
    as (_ & robot_id & o1 & _ & _ & _ & _ & Hmin & Hgrow).
  intros r c. rewrite Hgrow.
  destruct (strength_of (robot_capabilities_ o) r c) as [s|] eqn:Hs;
    [reflexivity|].
  destruct (checked_capability task_type); [|reflexivity].
  destruct (String.eqb_spec r robot_id) as [->|_]; [|reflexivity].
  destruct (String.eqb_spec c task_type) as [->|_]; [|reflexivity].
  specialize (Hmin eq_refl). unfold strength_or_zero in Hmin.
  rewrite Hs in Hmin. lia.
Qed.

(** C9 fails on the code: with the advisory recommending Scion for
    [heavy_lifting] on the initial table, the check
    [robot_capabilities_[robot_id]["heavy_lifting"] < 50] inserts the
    capability [heavy_lifting] with strength 0 into Scion's map before the
    call throws, so the table after the call is not the table before it. *)
Theorem delegateTask_inserts_capability :
  let w := mkWorld (recommends "Scion") sqlite_ok "now" in
  let o := new_Orchestrator (mkLedger [] 0) in
  let o' := snd (delegateTask w "heavy_lifting" o) in
  (exists e, fst (delegateTask w "heavy_lifting" o) = inl e /\
             InsufficientCapability "Scion" "heavy_lifting" e) /\
  strength_of (robot_capabilities_ o) "Scion" "heavy_lifting" = None /\
  strength_of (robot_capabilities_ o') "Scion" "heavy_lifting" = Some 0 /\
  robot_capabilities_ o'
  = [ ("Ford", [("heavy_lifting", 90); ("navigation", 70)]);
      ("Scion", [("delicate_task", 85); ("heavy_lifting", 0);
                 ("navigation", 80)]) ] /\
  ~ same_capabilities (robot_capabilities_ o) (robot_capabilities_ o').
Proof.
  intros w o o'. split; [eexists; split; reflexivity|].
  split; [reflexivity|]. split; [reflexivity|]. split; [reflexivity|].
  intros H. specialize (H "Scion" "heavy_lifting"). discriminate H.
Qed.

(** * Further properties of the code *)

(** ** Outcomes of the advisory query *)

Lemma queryAIEngine_advises x robot_id task_type o :
  advises x robot_id ->
  valid_utf8 task_type = true ->
  queryAIEngine x task_type o
  = (inr robot_id, zmq_send (JObject [("task_type", JString task_type)]) o).
Proof.
  intros (response & -> & Hc & Hat) Hv.
  unfold queryAIEngine, try_catch. rewrite queryAIEngine_try_valid by exact Hv.
  unfold request_reply, bind, modify, ret.
  simpl. now rewrite Hc, Hat.
Qed.

(** An exchange either fails or advises a robot. *)
Lemma advisory_fails_or_advises x :
  advisory_fails x \/ exists robot_id, advises x robot_id.
Proof.
  destruct x as [msg|msg| |msg|response]; simpl; try (now left).
  destruct (json_contains response "robot_id") eqn:Hc; [|now left; left].
  destruct (json_at response "robot_id") as [| | |s| |] eqn:Hat;
    try (now left; right).
  right. exists s, response. now repeat split.
Qed.

Lemma selectRobotByCapability_throws task_type o e o1 :
  selectRobotByCapability task_type o = (inl e, o1) -> NotFound task_type e.
Proof.
  unfold selectRobotByCapability, bind, gets, throw, ret, NotFound.
  destruct (String.eqb _ _); [|discriminate]. now intros [= <- _].
Qed.

Lemma queryAIEngine_fallback_state x task_type o :
  advisory_fails x ->
  exists line,
    cerr (snd (queryAIEngine x task_type o)) = (cerr o ++ [line])%list /\
    (zmq_sent (snd (queryAIEngine x task_type o)) = zmq_sent o \/
     zmq_sent (snd (queryAIEngine x task_type o))
     = (zmq_sent o ++ [JObject [("task_type", JString task_type)]])%list).
Proof.
  intros Hfail.
  destruct (valid_utf8 task_type) eqn:Hv.
  2:{ destruct (queryAIEngine_invalid x task_type o Hv)
        as (_ & Hsent & line & Hline).
      exists line. split; [exact Hline | now left]. }
  unfold queryAIEngine, try_catch. rewrite queryAIEngine_try_valid by exact Hv.
  unfold request_reply, selectRobotByCapability, bind, modify, gets,
    throw, ret.
  destruct x as [msg|msg| |msg|response]; simpl in *;
    try (destruct (String.eqb (fst (select_loop _ _ _)) EmptyString); simpl;
         eexists; (split; [reflexivity|]);
         first [left; reflexivity | right; reflexivity]).
  assert (Hb : negb (json_contains response "robot_id")
               || negb (json_is_string (json_at response "robot_id")) = true).
  { destruct Hfail as [-> | ->]; [reflexivity | apply orb_true_r]. }
  rewrite Hb. simpl.
  destruct (String.eqb (fst (select_loop _ _ _)) EmptyString); simpl;
    eexists; (split; [reflexivity|]); right; reflexivity.
Qed.

(** The query ends in the fallback when the exchange fails and when the
    request cannot be serialised. *)
Lemma queryAIEngine_falls_back x task_type o :
  advisory_fails x \/ valid_utf8 task_type = false ->
  fst (queryAIEngine x task_type o)
  = fst (selectRobotByCapability task_type o).
Proof.
  intros [Hfail|Hv]; [now apply queryAIEngine_fallback|].
  now apply queryAIEngine_invalid.
Qed.

Lemma queryAIEngine_throws x task_type o e :
  fst (queryAIEngine x task_type o) = inl e ->
  (advisory_fails x \/ valid_utf8 task_type = false)
  /\ NotFound task_type e.
Proof.
  intros He.
  assert (Hcase : (advisory_fails x \/ valid_utf8 task_type = false)
                  \/ exists r, advises x r /\ valid_utf8 task_type = true).
  { destruct (valid_utf8 task_type); [|now left; right].
    destruct (advisory_fails_or_advises x) as [Hfail|[r Hr]];
      [now left; left | right; now exists r]. }
  destruct Hcase as [Hfb|(r & Hr & Hv)].
  - split; [exact Hfb|].
    rewrite (queryAIEngine_falls_back _ _ _ Hfb) in He.
    destruct (selectRobotByCapability task_type o) as [res o1] eqn:Hs.
    simpl in He. subst res. now apply selectRobotByCapability_throws in Hs.
  - rewrite (queryAIEngine_advises _ _ _ _ Hr Hv) in He. discriminate He.
Qed.

(** X1: [queryAIEngine] in full.  When the task type is well-formed UTF-8,
    a reply with a string [robot_id] is returned as it is, whether or not
    the table knows that robot, after one request and without a line on
    [cerr].  Every other exchange, and every task type that is not
    well-formed UTF-8 and so cannot be serialised into a request, ends in
    the fallback: one line goes to [cerr], at most one request was sent
    (none when the request could not be serialised), and the result is the
    one of [selectRobotByCapability].  The only exception that leaves
    [queryAIEngine] is the fallback's "No robot found". *)
Theorem queryAIEngine_outcomes (x : zmq_exchange) (task_type : string)
  (o : Orchestrator) :
  (forall robot_id, advises x robot_id -> valid_utf8 task_type = true ->
     queryAIEngine x task_type o
     = (inr robot_id,
        zmq_send (JObject [("task_type", JString task_type)]) o)) /\
  (advisory_fails x \/ valid_utf8 task_type = false ->
     fst (queryAIEngine x task_type o)
     = fst (selectRobotByCapability task_type o) /\
     exists line,
       cerr (snd (queryAIEngine x task_type o)) = (cerr o ++ [line])%list /\
       (zmq_sent (snd (queryAIEngine x task_type o)) = zmq_sent o \/
        zmq_sent (snd (queryAIEngine x task_type o))
        = (zmq_sent o ++ [JObject [("task_type", JString task_type)]])%list))
  /\
  (valid_utf8 task_type = false ->
     zmq_sent (snd (queryAIEngine x task_type o)) = zmq_sent o)
  /\
  (forall e, fst (queryAIEngine x task_type o) = inl e ->
     (advisory_fails x \/ valid_utf8 task_type = false)
     /\ NotFound task_type e).
Proof.
  split; [|split; [|split]].
  - intros robot_id. apply queryAIEngine_advises.
  - intros Hfb. split; [now apply queryAIEngine_falls_back|].
    destruct Hfb as [Hfail|Hv]; [now apply queryAIEngine_fallback_state|].
    destruct (queryAIEngine_invalid x task_type o Hv)
      as (_ & Hsent & line & Hline).
    exists line. split; [exact Hline | now left].
  - intros Hv. now apply queryAIEngine_invalid.
  - intros e. apply queryAIEngine_throws.
Qed.

(** The theorem on four queries over the initial table: a recommendation
    of a robot the table does not know, a timeout on a task the table can
    serve, a task type of the single byte FF with a replying advisory, and
    a reply without [robot_id] on a task nobody can serve. *)
Lemma queryAIEngine_outcomes_witness :
  let o := new_Orchestrator (mkLedger [] 0) in
  fst (queryAIEngine (recommends "Nobody") "navigation" o) = inr "Nobody" /\
  fst (queryAIEngine RecvTimeout "navigation" o)
  = fst (selectRobotByCapability "navigation" o) /\
  zmq_sent (snd (queryAIEngine (recommends "Ford")
                   (String "255"%char EmptyString) o)) = [] /\
  ((advisory_fails (Reply (JObject [])) \/ valid_utf8 "painting" = false) /\
   NotFound "painting"
     (runtime_error "No robot found with capability: painting")).
Proof.
  intros o. split; [|split; [|split]].
  - rewrite (proj1 (queryAIEngine_outcomes (recommends "Nobody")
                      "navigation" o) "Nobody"); [reflexivity| |reflexivity].
    eexists. now repeat split.
  - apply (proj1 (proj1 (proj2 (queryAIEngine_outcomes RecvTimeout
                                 "navigation" o)) (or_introl I))).
  - apply (proj1 (proj2 (proj2 (queryAIEngine_outcomes (recommends "Ford")
                                  (String "255"%char EmptyString) o)))).
    reflexivity.
  - apply (proj2 (proj2 (proj2 (queryAIEngine_outcomes (Reply (JObject []))
                                  "painting" o)))).
    reflexivity.
Defined.

(** ** Outcomes of a delegation *)

(** The message for the robot is serialised exactly when robot id and task
    type are well-formed UTF-8. *)
Lemma dump_task_data_cases robot_id task_type :
  (json_dump_error (dispatch_request robot_id task_type) = None /\
   valid_utf8 robot_id && valid_utf8 task_type = true)
  \/
  (exists text,
     json_dump_error (dispatch_request robot_id task_type) = Some text /\
     valid_utf8 robot_id && valid_utf8 task_type = false).
Proof.
  unfold dispatch_request. rewrite json_dump_error_task_data.
  unfold valid_utf8.
  destruct (string_dump_error robot_id) as [text|];
    [right; now exists text|].
  destruct (string_dump_error task_type) as [text|];
    [right; now exists text | now left].
Qed.

(** The four ways through [delegateTask], with what each returns and the
    state it leaves: the empty task type, a selection that found nobody, a
    recommended robot the table does not hold, and a robot of the table. *)
Lemma delegateTask_cases w task_type o :
  (task_type = EmptyString /\
   delegateTask w task_type o
   = (inl (invalid_argument "Task type cannot be empty"), o))
  \/
  (task_type <> EmptyString /\
   exists e0 o1,
     queryAIEngine (ai_engine w) task_type o = (inl e0, o1) /\
     delegateTask w task_type o
     = (inl (runtime_error ("AI engine query failed: " ++ what e0)), o1))
  \/
  (task_type <> EmptyString /\
   exists robot_id o1,
     queryAIEngine (ai_engine w) task_type o = (inr robot_id, o1) /\
     StdMap.find robot_id (robot_capabilities_ o) = None /\
     delegateTask w task_type o
     = (inl (runtime_error ("Robot " ++ robot_id ++ " not found")), o1))
  \/
  (task_type <> EmptyString /\
   exists robot_id o1 caps table',
     queryAIEngine (ai_engine w) task_type o = (inr robot_id, o1) /\
     StdMap.find robot_id (robot_capabilities_ o) = Some caps /\
     grown_by robot_id task_type (checked_capability task_type)
       (robot_capabilities_ o) table' /\
     delegateTask w task_type o
     = if checked_capability task_type
          && (strength_or_zero (robot_capabilities_ o) robot_id task_type
              <? 50)
       then (inl (runtime_error ("Robot " ++ robot_id ++ " lacks sufficient "
                                 ++ task_type ++ " capability")),
             set_capabilities table' o1)
       else
         match prepare_error (sqlite w), step_error (sqlite w) with
         | Some msg, _ =>
             (inl (runtime_error ("Failed to store task: "
                                  ++ "Failed to prepare insert statement: "
                                  ++ c_str msg)),
              set_capabilities table' o1)
         | None, Some msg =>
             (inl (runtime_error ("Failed to store task: "
                                  ++ "Failed to insert task: " ++ c_str msg)),
              set_capabilities table' o1)
         | None, None =>
             match json_dump_error (dispatch_request robot_id task_type) with
             | Some text =>
                 (inl (json_exception text),
                  set_db (ledger_insert (c_str task_type) (c_str robot_id)
                            "assigned" (current_timestamp w) (db_ o1))
                    (set_capabilities table' o1))
             | None =>
                 (inr tt,
                  ros_publish (dispatch_request robot_id task_type)
                    (set_db (ledger_insert (c_str task_type) (c_str robot_id)
                               "assigned" (current_timestamp w) (db_ o1))
                       (set_capabilities table' o1)))
             end
         end).
Proof.
  destruct (String.eqb_spec task_type EmptyString) as [->|Hne].
  { left. now split. }
  right.
  pose proof (queryAIEngine_frame (ai_engine w) task_type o) as Hfr.
  destruct (queryAIEngine (ai_engine w) task_type o)
    as [[e0|robot_id] o1] eqn:Hq; simpl in Hfr; destruct Hfr as (Ht & _ & _).
  - left. split; [exact Hne|]. exists e0, o1. split; [reflexivity|].
    now apply delegateTask_not_selected.
  - right. rewrite (delegateTask_selected _ _ _ _ _ Hne Hq). rewrite <- Ht.
    destruct (StdMap.find robot_id (robot_capabilities_ o1)) as [caps|] eqn:Hf.
    + right. split; [exact Hne|].
      destruct (delegate_to_known w task_type robot_id o1 caps Hf)
        as (table' & Hgrow & Hd).
      exists robot_id, o1, caps, table'.
      split; [reflexivity|]. split; [exact Hf|]. split; [exact Hgrow|].
      exact Hd.
    + left. split; [exact Hne|]. exists robot_id, o1.
      split; [reflexivity|]. split; [exact Hf|].
      now apply delegate_to_unknown.
Qed.

(** What a delegation does to the ledger and to the task channel: nothing;
    or one row and no message, when the message for a robot of the table
    cannot be serialised; or one row and one message for the same robot. *)
Lemma delegateTask_effect w task_type o :
  (exists e, fst (delegateTask w task_type o) = inl e /\
             (forall text, e <> json_exception text) /\
             db_ (snd (delegateTask w task_type o)) = db_ o /\
             task_published (snd (delegateTask w task_type o))
             = task_published o)
  \/
  (exists robot_id text,
     fst (delegateTask w task_type o) = inl (json_exception text) /\
     StdMap.find robot_id (robot_capabilities_ o) <> None /\
     valid_utf8 robot_id && valid_utf8 task_type = false /\
     db_ (snd (delegateTask w task_type o))
     = ledger_insert (c_str task_type) (c_str robot_id) "assigned"
         (current_timestamp w) (db_ o) /\
     task_published (snd (delegateTask w task_type o)) = task_published o)
  \/
  (exists robot_id,
     fst (delegateTask w task_type o) = inr tt /\
     valid_utf8 robot_id && valid_utf8 task_type = true /\
     db_ (snd (delegateTask w task_type o))
     = ledger_insert (c_str task_type) (c_str robot_id) "assigned"
         (current_timestamp w) (db_ o) /\
     task_published (snd (delegateTask w task_type o))
     = (task_published o ++ [dispatch_request robot_id task_type])%list).
Proof.
  destruct (delegateTask_cases w task_type o)
    as [[_ ->]|[(_ & e0 & o1 & Hq & ->)|[(_ & r & o1 & Hq & _ & ->)
       |(_ & r & o1 & caps & table' & Hq & Hf & _ & ->)]]];
    try (pose proof (queryAIEngine_frame (ai_engine w) task_type o) as Hfr;
         rewrite Hq in Hfr; simpl in Hfr; destruct Hfr as (_ & Hdb & Hpub)).
  - left. eexists. now repeat split.
  - left. eexists. now repeat split.
  - left. eexists. now repeat split.
  - destruct (checked_capability task_type && _);
      [left; eexists; now repeat split|].
    destruct (prepare_error (sqlite w));
      [left; eexists; now repeat split|].
    destruct (step_error (sqlite w));
      [left; eexists; now repeat split|].
    destruct (dump_task_data_cases r task_type)
      as [[-> Hv]|(text & -> & Hv)].
    + right; right. exists r. cbn [fst snd]. split; [reflexivity|].
      split; [exact Hv|]. simpl. rewrite Hdb, Hpub. now split.
    + right; left. exists r, text. cbn [fst snd]. split; [reflexivity|].
      split; [now rewrite Hf|]. split; [exact Hv|].
      simpl. rewrite Hdb, Hpub. now split.
Qed.

(** X2: a delegation that throws has published nothing on the task
    channel, and it has added no row to the ledger unless what it throws is
    the JSON exception of the serialisation of the task message: that one
    is thrown after the row for a robot of the table was stored, and only
    when the robot id or the task type is not well-formed UTF-8.  With a
    task type and a table whose robot ids are all well-formed UTF-8, a
    delegation that throws leaves the ledger as it was. *)
Theorem delegateTask_failure_effect
  (w : World) (task_type : string) (o o' : Orchestrator) (e : exception) :
  delegateTask w task_type o = (inl e, o') ->
  task_published o' = task_published o /\
  ((forall text, e <> json_exception text) -> db_ o' = db_ o) /\
  (forall text, e = json_exception text ->
     exists robot_id,
       StdMap.find robot_id (robot_capabilities_ o) <> None /\
       valid_utf8 robot_id && valid_utf8 task_type = false /\
       db_ o' = ledger_insert (c_str task_type) (c_str robot_id) "assigned"
                  (current_timestamp w) (db_ o)) /\
  (valid_utf8 task_type = true ->
   (forall robot_id, In robot_id (StdMap.keys (robot_capabilities_ o)) ->
                     valid_utf8 robot_id = true) ->
   db_ o' = db_ o).
Proof.
  intros H.
  destruct (delegateTask_effect w task_type o)
    as [(e' & He & Hnot & Hdb & Hpub)
       |[(r & text & He & Hf & Hv & Hdb & Hpub)|(r & Hok & _)]];
    rewrite H in *; simpl in *.
  - injection He as ->. split; [exact Hpub|]. split; [now intros _|].
    split; [|now intros _ _].
    intros text ->. now elim (Hnot text).
  - injection He as ->. split; [exact Hpub|]. split.
    { intros Hnot. now elim (Hnot text). }
    split.
    + intros _ _. exists r. now repeat split.
    + intros Ht Hkeys. exfalso.
      destruct (StdMap.find r (robot_capabilities_ o)) as [caps|] eqn:Hfr;
        [|now elim Hf].
      rewrite (Hkeys r), Ht in Hv; [discriminate Hv|].
      apply In_keys with caps. now apply find_In.
  - discriminate Hok.
Qed.

(** The theorem on a table whose only robot serves a task type of the
    single byte FF, with the oracle down: the fallback picks Ford, the row
    is stored, the serialisation throws, nothing is published. *)
Lemma delegateTask_failure_effect_witness :
  let w := mkWorld RecvTimeout sqlite_ok "now" in
  let bad := String "255"%char EmptyString in
  let o := mkOrchestrator [("Ford", [(bad, 5)])] (mkLedger [] 0) [] [] [] in
  task_published (snd (delegateTask w bad o)) = [] /\
  exists robot_id,
    StdMap.find robot_id (robot_capabilities_ o) <> None /\
    valid_utf8 robot_id && valid_utf8 bad = false /\
    db_ (snd (delegateTask w bad o))
    = ledger_insert (c_str bad) (c_str robot_id) "assigned" "now"
        (mkLedger [] 0).
Proof.
  intros w bad o.
  destruct (delegateTask_failure_effect w bad o (snd (delegateTask w bad o))
              (json_exception
                 ("[json.exception.type_error.316] "
                  ++ "invalid UTF-8 byte at index 0: 0xFF")) eq_refl)
    as (Hpub & _ & Hjson & _).
  split; [exact Hpub|]. exact (Hjson _ eq_refl).
Defined.

(** X3: every exception that leaves [delegateTask] is one of six: the
    [invalid_argument] for the empty task type; a [runtime_error] saying
    that no robot was found, that the recommended robot is not in the table,
    that the robot lacks the capability (only for the two checked task
    types), or that the store failed; or the JSON exception of the
    serialisation of the task message, for a robot of the table, when the
    robot id or the task type is not well-formed UTF-8.  No ZeroMQ
    exception and no exception of the advisory exchange reaches the
    caller. *)
Theorem delegateTask_exceptions
  (w : World) (task_type : string) (o : Orchestrator) (e : exception) :
  fst (delegateTask w task_type o) = inl e ->
  (task_type = EmptyString /\ ValidationError e) \/
  NoCapableRobot task_type e \/
  (exists robot_id, RobotNotFound robot_id e) \/
  (exists robot_id, checked_capability task_type = true /\
                    InsufficientCapability robot_id task_type e) \/
  PersistenceError e \/
  (SerialisationError e /\
   exists robot_id,
     StdMap.find robot_id (robot_capabilities_ o) <> None /\
     valid_utf8 robot_id && valid_utf8 task_type = false).
Proof.
  intros He.
  destruct (delegateTask_cases w task_type o)
    as [[Hempty Hd]|[(_ & e0 & o1 & Hq & Hd)|[(_ & r & o1 & Hq & _ & Hd)
       |(_ & r & o1 & caps & table' & Hq & Hf & _ & Hd)]]].
  - rewrite Hd in He. left. injection He as <-. now split.
  - rewrite Hd in He. right; left. injection He as <-.
    assert (He0 : fst (queryAIEngine (ai_engine w) task_type o) = inl e0)
      by now rewrite Hq.
    apply queryAIEngine_throws in He0.
    destruct He0 as [_ ->]. reflexivity.
  - rewrite Hd in He. right; right; left. injection He as <-. now exists r.
  - right; right; right.
    rewrite Hd in He. clear Hd.
    destruct (checked_capability task_type) eqn:Hchk; cbn [andb] in He.
    + destruct (_ <? 50).
      * left. injection He as <-. exists r. now split.
      * right.
        destruct (prepare_error (sqlite w));
          [left; injection He as <-; eexists; reflexivity|].
        destruct (step_error (sqlite w));
          [left; injection He as <-; eexists; reflexivity|].
        destruct (dump_task_data_cases r task_type)
          as [[Hj Hv]|(text & Hj & Hv)]; rewrite Hj in He;
          [discriminate He|].
        right. injection He as <-. split; [now exists text|].
        exists r. split; [now rewrite Hf | exact Hv].
    + right.
      destruct (prepare_error (sqlite w));
        [left; injection He as <-; eexists; reflexivity|].
      destruct (step_error (sqlite w));
        [left; injection He as <-; eexists; reflexivity|].
      destruct (dump_task_data_cases r task_type)
        as [[Hj Hv]|(text & Hj & Hv)]; rewrite Hj in He;
        [discriminate He|].
      right. injection He as <-. split; [now exists text|].
      exists r. split; [now rewrite Hf | exact Hv].
Qed.

(** The theorem on a recommendation of a robot that does not exist. *)
Lemma delegateTask_exceptions_witness :
  fst (delegateTask (mkWorld (recommends "Nobody") sqlite_ok "now")
         "navigation" (new_Orchestrator (mkLedger [] 0)))
  = inl (runtime_error "Robot Nobody not found") /\
  exists robot_id,
    RobotNotFound robot_id (runtime_error "Robot Nobody not found").
Proof.
  split; [reflexivity|].
  destruct (delegateTask_exceptions
              (mkWorld (recommends "Nobody") sqlite_ok "now") "navigation"
              (new_Orchestrator (mkLedger [] 0))
              (runtime_error "Robot Nobody not found") eq_refl)
    as [[H _]|[H|[H|[[r [H _]]|[[text H]|[[text H] _]]]]]];
    try discriminate H.
  exact H.
Defined.

(** X4: a recommendation is not checked against the fallback.  When the
    advisory, asked about a task type that is well-formed UTF-8, names a
    robot that the table does not hold, [delegateTask] throws "Robot ...
    not found" even if the table has a capable robot; the request was
    sent, and nothing else has changed. *)
Theorem delegateTask_unknown_recommendation
  (w : World) (task_type robot_id : string) (o : Orchestrator) :
  task_type <> EmptyString ->
  valid_utf8 task_type = true ->
  advises (ai_engine w) robot_id ->
  StdMap.find robot_id (robot_capabilities_ o) = None ->
  exists e,
    delegateTask w task_type o
    = (inl e, zmq_send (JObject [("task_type", JString task_type)]) o) /\
    RobotNotFound robot_id e.
Proof.
  intros Hne Hv Hadv Hf.
  pose proof (queryAIEngine_advises _ _ task_type o Hadv Hv) as Hq.
  rewrite (delegateTask_selected _ _ _ _ _ Hne Hq).
  rewrite delegate_to_unknown by exact Hf.
  eexists. split; reflexivity.
Qed.

(** The theorem on the initial table: [navigation], which both robots can
    do, is refused because the advisory recommends a robot called Nobody. *)
Lemma delegateTask_unknown_recommendation_witness :
  let o := new_Orchestrator (mkLedger [] 0) in
  exists e,
    delegateTask (mkWorld (recommends "Nobody") sqlite_ok "now")
      "navigation" o
    = (inl e, zmq_send (JObject [("task_type", JString "navigation")]) o) /\
    RobotNotFound "Nobody" e.
Proof.
  intros o.
  apply (delegateTask_unknown_recommendation
           (mkWorld (recommends "Nobody") sqlite_ok "now") "navigation"
           "Nobody" o).
  - discriminate.
  - reflexivity.
  - eexists. now repeat split.
  - reflexivity.
Defined.

(** The robot the fallback returns is a robot of the table with positive
    strength for the task. *)
Lemma selectRobotByCapability_capable task_type o robot_id :
  StdMap.sorted (robot_capabilities_ o) ->
  fst (selectRobotByCapability task_type o) = inr robot_id ->
  exists s, capable (robot_capabilities_ o) task_type robot_id s.
Proof.
  intros Hs.
  pose proof (select_loop_best _ task_type Hs) as Hloop. cbv zeta in Hloop.
  unfold selectRobotByCapability, bind, gets, throw, ret.
  destruct (String.eqb_spec
              (fst (select_loop task_type (robot_capabilities_ o)
                      (EmptyString, 0))) EmptyString) as [_|Hne];
    simpl; [discriminate|].
  intros [= <-]. destruct Hloop as [[Heq _]|[_ Hc]].
  - rewrite Heq in Hne. now elim Hne.
  - eauto.
Qed.

(** X5: after an advisory failure the robot is always one of the table: on a
    well-formed table, the robot [queryAIEngine] returns has positive
    strength for the task type, and the only exceptions [delegateTask] can
    throw are "No robot found", "lacks sufficient capability", a failed
    store and, when the robot id or the task type is not well-formed UTF-8,
    the JSON exception of the serialisation of the task message - never
    "Robot ... not found". *)
Theorem delegateTask_after_advisory_failure
  (w : World) (task_type : string) (o : Orchestrator) :
  task_type <> EmptyString ->
  advisory_fails (ai_engine w) ->
  StdMap.sorted (robot_capabilities_ o) ->
  (forall robot_id,
     fst (queryAIEngine (ai_engine w) task_type o) = inr robot_id ->
     exists s, capable (robot_capabilities_ o) task_type robot_id s) /\
  (forall e,
     fst (delegateTask w task_type o) = inl e ->
     NoCapableRobot task_type e \/
     (exists robot_id, InsufficientCapability robot_id task_type e) \/
     PersistenceError e \/
     (SerialisationError e /\
      exists robot_id s,
        capable (robot_capabilities_ o) task_type robot_id s /\
        valid_utf8 robot_id && valid_utf8 task_type = false)).
Proof.
  intros Hne Hfail Hs.
  assert (Hsel : forall robot_id,
            fst (queryAIEngine (ai_engine w) task_type o) = inr robot_id ->
            exists s, capable (robot_capabilities_ o) task_type robot_id s).
  { intros r Hr. rewrite (queryAIEngine_fallback _ _ _ Hfail) in Hr.
    now apply selectRobotByCapability_capable. }
  split; [exact Hsel|].
  intros e He.
  destruct (delegateTask_cases w task_type o)
    as [[Hempty _]|[(_ & e0 & o1 & Hq & Hd)|[(_ & r & o1 & Hq & Hnone & _)
       |(_ & r & o1 & caps & table' & Hq & _ & _ & Hd)]]].
  - contradiction.
  - left. rewrite Hd in He. injection He as <-.
    assert (He0 : fst (queryAIEngine (ai_engine w) task_type o) = inl e0)
      by now rewrite Hq.
    rewrite (queryAIEngine_fallback _ _ _ Hfail) in He0.
    destruct (selectRobotByCapability task_type o) as [res o2] eqn:Hsl.
    simpl in He0. subst res.
    apply selectRobotByCapability_throws in Hsl. rewrite Hsl. reflexivity.
  - exfalso. destruct (Hsel r) as (s & [Hc _]); [now rewrite Hq|].
    unfold strength_of in Hc. rewrite Hnone in Hc. discriminate Hc.
  - right. rewrite Hd in He. clear Hd.
    destruct (checked_capability task_type && _).
    + left. injection He as <-. now exists r.
    + right. destruct (prepare_error (sqlite w));
        [left; injection He as <-; eexists; reflexivity|].
      destruct (step_error (sqlite w));
        [left; injection He as <-; eexists; reflexivity|].
      destruct (dump_task_data_cases r task_type)
        as [[Hj Hv]|(text & Hj & Hv)]; rewrite Hj in He;
        [discriminate He|].
      right. injection He as <-. split; [now exists text|].
      destruct (Hsel r) as (s & Hc); [now rewrite Hq|].
      now exists r, s.
Qed.

(** The theorem with the oracle timing out on the initial table: the robot
    chosen for [navigation] is capable of it. *)
Lemma delegateTask_after_advisory_failure_witness :
  exists s,
    capable initial_capabilities "navigation" "Scion" s.
Proof.
  apply (proj1 (delegateTask_after_advisory_failure
                  (mkWorld RecvTimeout sqlite_ok "now") "navigation"
                  (new_Orchestrator (mkLedger [] 0))
                  ltac:(discriminate) I ltac:(repeat constructor)) "Scion").
  reflexivity.
Defined.

(** ** The ledger under delegations *)

(** The ledger after a delegation: as before, or with one more row. *)
Lemma delegateTask_ledger w task_type o :
  db_ (snd (delegateTask w task_type o)) = db_ o \/
  exists robot_id,
    db_ (snd (delegateTask w task_type o))
    = ledger_insert (c_str task_type) (c_str robot_id) "assigned"
        (current_timestamp w) (db_ o).
Proof.
  destruct (delegateTask_effect w task_type o)
    as [(e & _ & _ & Hdb & _)
       |[(r & text & _ & _ & _ & Hdb & _)|(r & _ & _ & Hdb & _)]].
  - now left.
  - right. now exists r.
  - right. now exists r.
Qed.

(** X6: [delegateTask] keeps the ledger well formed and only ever appends to
    it: the rows it found are still there, in the same order, followed by
    at most one new row, and the counter has advanced by the number of rows
    added. *)
Theorem delegateTask_ledger_append_only
  (w : World) (task_type : string) (o : Orchestrator) :
  ledger_wf (db_ o) ->
  let l' := db_ (snd (delegateTask w task_type o)) in
  ledger_wf l' /\
  exists added,
    rows l' = (rows (db_ o) ++ added)%list /\
    (length added <= 1)%nat /\
    seq l' = seq (db_ o) + Z.of_nat (length added) /\
    Forall (fun r => row_id r = seq (db_ o) + 1) added.
Proof.
  intros Hwf l'. unfold l'.
  destruct (delegateTask_ledger w task_type o) as [-> | (r & ->)].
  - split; [exact Hwf|]. exists []. rewrite app_nil_r. simpl.
    repeat split; [lia | lia | constructor].
  - split; [now apply ledger_insert_wf|].
    eexists. split; [reflexivity|]. simpl.
    repeat split; [lia | repeat constructor].
Qed.

(** The theorem on the empty ledger. *)
Lemma delegateTask_ledger_append_only_witness :
  ledger_wf
    (db_ (snd (delegateTask (mkWorld RecvTimeout sqlite_ok "now")
                 "navigation" (new_Orchestrator (mkLedger [] 0))))).
Proof.
  apply (delegateTask_ledger_append_only (mkWorld RecvTimeout sqlite_ok "now")
           "navigation" (new_Orchestrator (mkLedger [] 0))).
  split; constructor.
Defined.

(** X7: a later delegation never changes what [getTaskStatus] answers for an
    id that was already issued: for every id up to the counter, the
    outcome of [getTaskStatus] after any [delegateTask] is the outcome
    before it. *)
Theorem getTaskStatus_stable
  (w : World) (task_type : string) (o : Orchestrator)
  (answer : sqlite_answer) (task_id : Z) :
  task_id <= seq (db_ o) ->
  fst (getTaskStatus answer task_id (snd (delegateTask w task_type o)))
  = fst (getTaskStatus answer task_id o).
Proof.
  intros Hid.
  assert (Hsel : ledger_select task_id (db_ (snd (delegateTask w task_type o)))
                 = ledger_select task_id (db_ o)).
  { destruct (delegateTask_ledger w task_type o) as [-> | (r & ->)];
      [reflexivity|].
    unfold ledger_select, ledger_insert. simpl.
    rewrite filter_app. simpl.
    destruct (Z.eqb_spec (seq (db_ o) + 1) task_id); [lia|].
    apply app_nil_r. }
  unfold getTaskStatus, bind, gets, throw, ret.
  destruct (prepare_error answer); [reflexivity|]. simpl. rewrite Hsel.
  destruct (step_error answer); [reflexivity|].
  now destruct (map row_to_map (ledger_select task_id (db_ o))).
Qed.

(** The theorem on two delegations in a row: the record of the first is
    read back after the second as it was read before it. *)
Lemma getTaskStatus_stable_witness :
  let w := mkWorld RecvTimeout sqlite_ok "now" in
  let o1 := snd (delegateTask w "heavy_lifting"
                   (new_Orchestrator (mkLedger [] 0))) in
  fst (getTaskStatus sqlite_ok 1 (snd (delegateTask w "navigation" o1)))
  = fst (getTaskStatus sqlite_ok 1 o1).
Proof.
  intros w o1.
  apply (getTaskStatus_stable w "navigation" o1 sqlite_ok 1).
  vm_compute. discriminate.
Defined.

(** ** The capability table under delegations *)

Lemma keys_insert {V : Type} (k : string) (v : V) (m : StdMap.t V) x :
  In x (StdMap.keys (StdMap.insert k v m)) -> x = k \/ In x (StdMap.keys m).
Proof.
  induction m as [|[k' v'] m IH]; simpl.
  - intros [<-|[]]. now left.
  - destruct (String.compare k k') eqn:Hc; simpl.
    + apply String.compare_eq_iff in Hc. subst k'.
      intros [<-|H]; [now left | now right; right].
    + intros [<-|[<-|H]]; [now left | now right; left | now right; right].
    + intros [<-|H]; [now right; left|].
      destruct (IH H) as [->|Hin]; [now left | now right; right].
Qed.

(** Assignment keeps a map well formed. *)
Lemma insert_sorted {V : Type} (k : string) (v : V) (m : StdMap.t V) :
  StdMap.sorted m -> StdMap.sorted (StdMap.insert k v m).
Proof.
  unfold StdMap.sorted.
  induction m as [|[k' v'] m IH]; simpl; intros Hs.
  - repeat constructor.
  - apply StronglySorted_inv in Hs as [Hs Hall].
    destruct (String.compare k k') eqn:Hc; simpl.
    + apply String.compare_eq_iff in Hc. subst k'. now constructor.
    + apply (proj1 (String_as_OT.cmp_lt k k')) in Hc.
      constructor; [now constructor|].
      constructor; [exact Hc|].
      eapply Forall_impl; [|exact Hall]. simpl. intros a Ha.
      now apply String_as_OT.lt_trans with k'.
    + constructor; [now apply IH|].
      rewrite Forall_forall in *. intros x Hx.
      destruct (keys_insert _ _ _ _ Hx) as [->|Hin]; [|now apply Hall].
      apply String_as_OT.cmp_lt. unfold String_as_OT.cmp.
      rewrite String.compare_antisym, Hc. reflexivity.
Qed.

Lemma subscript_sorted {V : Type} (k : string) (dflt : V) (m : StdMap.t V) :
  StdMap.sorted m -> StdMap.sorted (snd (StdMap.subscript k dflt m)).
Proof.
  intros Hs. unfold StdMap.subscript.
  destruct (StdMap.find k m); simpl; [exact Hs | now apply insert_sorted].
Qed.

Lemma capability_subscript_sorted robot_id capability o :
  StdMap.sorted (robot_capabilities_ o) ->
  StdMap.sorted
    (robot_capabilities_ (snd (capability_subscript robot_id capability o))).
Proof.
  intros Hs. unfold capability_subscript.
  pose proof (subscript_sorted robot_id StdMap.empty _ Hs) as Hs1.
  destruct (StdMap.subscript robot_id StdMap.empty (robot_capabilities_ o))
    as [caps table].
  destruct (StdMap.subscript capability 0 caps) as [strength caps'].
  simpl in *. now apply insert_sorted.
Qed.

Lemma capability_subscript_table robot_id capability o1 o2 :
  robot_capabilities_ o1 = robot_capabilities_ o2 ->
  robot_capabilities_ (snd (capability_subscript robot_id capability o1))
  = robot_capabilities_ (snd (capability_subscript robot_id capability o2)).
Proof.
  intros H. unfold capability_subscript. rewrite H.
  destruct (StdMap.subscript robot_id StdMap.empty (robot_capabilities_ o2))
    as [caps table].
  now destruct (StdMap.subscript capability 0 caps).
Qed.

Lemma delegate_to_table w task_type robot_id o :
  robot_capabilities_ (snd (delegate_to w task_type robot_id o))
  = robot_capabilities_ o
  \/ exists capability,
       robot_capabilities_ (snd (delegate_to w task_type robot_id o))
       = robot_capabilities_
           (snd (capability_subscript robot_id capability o)).
Proof.
  unfold delegate_to, dump. cbv zeta.
  set (task_data := JObject _).
  generalize (json_dump_error task_data) as err. intros err.
  unfold check_minimum, storeTask, try_catch, bind, gets,
    modify, throw, ret.
  destruct (StdMap.find robot_id (robot_capabilities_ o)); [|now left].
  destruct (String.eqb_spec task_type "heavy_lifting") as [->|_].
  - right. exists "heavy_lifting".
    destruct (capability_subscript robot_id "heavy_lifting" o)
      as [[e|s] o2] eqn:Hcs; simpl; [reflexivity|].
    destruct (s <? 50); simpl; [reflexivity|].
    destruct (prepare_error (sqlite w)); simpl; [reflexivity|].
    destruct (step_error (sqlite w)); simpl; [reflexivity|].
    now destruct err.
  - destruct (String.eqb_spec task_type "delicate_task") as [->|_]; simpl.
    + right. exists "delicate_task".
      destruct (capability_subscript robot_id "delicate_task" o)
        as [[e|s] o2] eqn:Hcs; simpl; [reflexivity|].
      destruct (s <? 50); simpl; [reflexivity|].
      destruct (prepare_error (sqlite w)); simpl; [reflexivity|].
      destruct (step_error (sqlite w)); simpl; [reflexivity|].
    now destruct err.
    + left.
      destruct (prepare_error (sqlite w)); simpl; [reflexivity|].
      destruct (step_error (sqlite w)); simpl; [reflexivity|].
    now destruct err.
Qed.

(** The table a delegation leaves is the one it found or the one a single
    subscript made of it. *)
Lemma delegateTask_table w task_type o :
  robot_capabilities_ (snd (delegateTask w task_type o))
  = robot_capabilities_ o
  \/ exists robot_id capability,
       robot_capabilities_ (snd (delegateTask w task_type o))
       = robot_capabilities_
           (snd (capability_subscript robot_id capability o)).
Proof.
  destruct (String.eqb_spec task_type EmptyString) as [->|Hne]; [now left|].
  pose proof (queryAIEngine_frame (ai_engine w) task_type o) as Hfr.
  destruct (queryAIEngine (ai_engine w) task_type o) as [[e0|r] o1] eqn:Hq;
    simpl in Hfr; destruct Hfr as (Ht & _ & _).
  - rewrite (delegateTask_not_selected _ _ _ _ _ Hne Hq). now left.
  - rewrite (delegateTask_selected _ _ _ _ _ Hne Hq).
    destruct (delegate_to_table w task_type r o1) as [->|[cap ->]].
    + now left.
    + right. exists r, cap. now apply capability_subscript_table.
Qed.

(** [delegateTask] keeps the table a well-formed map. *)
Lemma delegateTask_sorted w task_type o :
  StdMap.sorted (robot_capabilities_ o) ->
  StdMap.sorted (robot_capabilities_ (snd (delegateTask w task_type o))).
Proof.
  intros Hs. destruct (delegateTask_table w task_type o) as [->|(r & c & ->)].
  - exact Hs.
  - now apply capability_subscript_sorted.
Qed.

(** What is added by a subscript has strength 0, so it makes no robot
    capable of anything. *)
Lemma grown_by_capable robot_id capability grows before after cap r s :
  grown_by robot_id capability grows before after ->
  capable after cap r s <-> capable before cap r s.
Proof.
  intros Hg. unfold capable. rewrite Hg.
  destruct (strength_of before r cap) as [s0|]; [reflexivity|].
  destruct (grows && _ && _); split; intros [H Hpos];
    try discriminate H. injection H as <-. lia.
Qed.

(** The loop's answer is decided by who is capable. *)
Lemma select_loop_same a b capability :
  StdMap.sorted a -> StdMap.sorted b ->
  (forall r s, capable b capability r s <-> capable a capability r s) ->
  fst (select_loop capability b (EmptyString, 0))
  = fst (select_loop capability a (EmptyString, 0)).
Proof.
  intros Ha Hb Hsame.
  assert (Hbest : forall r, best_robot b capability r
                            <-> best_robot a capability r).
  { intros r. unfold best_robot. split; intros (s & Hc & Hmax).
    - exists s. split; [now apply Hsame|].
      intros r' s' Hc'. apply Hmax. now apply Hsame.
    - exists s. split; [now apply Hsame|].
      intros r' s' Hc'. apply Hmax. now apply Hsame. }
  destruct (select_loop_best a capability Ha) as [[Hea Hna]|[Hba Hca]];
    destruct (select_loop_best b capability Hb) as [[Heb Hnb]|[Hbb Hcb]].
  - now rewrite Hea, Heb.
  - exfalso. apply Hsame in Hcb. now apply Hna in Hcb.
  - exfalso. apply Hsame in Hca. now apply Hnb in Hca.
  - apply Hbest in Hbb. now apply best_robot_unique with a capability.
Qed.

(** X8: what a delegation can do to the capability table.  Every strength
    the table lists is kept; the only possible change is one added
    capability, with strength 0, for the robot that was recommended; and a
    delegation that succeeds leaves every robot with the capabilities and
    strengths it had. *)
Theorem delegateTask_table_effect
  (w : World) (task_type : string) (o : Orchestrator) :
  (forall r c s,
     strength_of (robot_capabilities_ o) r c = Some s ->
     strength_of (robot_capabilities_ (snd (delegateTask w task_type o))) r c
     = Some s) /\
  (forall r c s,
     strength_of (robot_capabilities_ (snd (delegateTask w task_type o))) r c
     = Some s ->
     strength_of (robot_capabilities_ o) r c = Some s \/
     (s = 0 /\ c = task_type /\ checked_capability task_type = true /\
      fst (queryAIEngine (ai_engine w) task_type o) = inr r)) /\
  (fst (delegateTask w task_type o) = inr tt ->
   same_capabilities (robot_capabilities_ o)
     (robot_capabilities_ (snd (delegateTask w task_type o)))).
Proof.
  split; [|split].
  - intros r c s. apply delegateTask_keeps_strengths.
  - intros r c s Hs.
    destruct (delegateTask_cases w task_type o)
      as [[_ Hd]|[(_ & e0 & o1 & Hq & Hd)|[(_ & r0 & o1 & Hq & _ & Hd)
         |(_ & r0 & o1 & caps & table' & Hq & _ & Hgrow & Hd)]]];
      rewrite Hd in Hs; clear Hd;
      try (pose proof (queryAIEngine_frame (ai_engine w) task_type o) as Hfr;
           rewrite Hq in Hfr; simpl in Hfr; destruct Hfr as (Ht & _ & _)).
    + now left.
    + simpl in Hs. rewrite Ht in Hs. now left.
    + simpl in Hs. rewrite Ht in Hs. now left.
    + assert (Hs' : strength_of table' r c = Some s).
      { destruct (checked_capability task_type && _); [exact Hs|].
        destruct (prepare_error (sqlite w)); [exact Hs|].
        destruct (step_error (sqlite w)); [exact Hs|].
        destruct (json_dump_error _); exact Hs. }
      rewrite Hgrow in Hs'.
      destruct (strength_of (robot_capabilities_ o) r c); [now left|].
      destruct (checked_capability task_type); [|discriminate Hs'].
      simpl in Hs'.
      destruct (String.eqb_spec r r0) as [->|_]; [|discriminate Hs'].
      destruct (String.eqb_spec c task_type) as [->|_]; [|discriminate Hs'].
      injection Hs' as <-. right. rewrite Hq. now repeat split.
  - intros Hok.
    destruct (delegateTask w task_type o) as [res o'] eqn:Hd.
    simpl in Hok. subst res.
    now apply delegateTask_success_same_capabilities with w task_type.
Qed.

(** The theorem on the recommendation of Scion for [heavy_lifting], which
    fails and keeps Ford's strength, and on a delegation of [navigation]
    that succeeds. *)
Lemma delegateTask_table_effect_witness :
  let o := new_Orchestrator (mkLedger [] 0) in
  strength_of
    (robot_capabilities_
       (snd (delegateTask (mkWorld (recommends "Scion") sqlite_ok "now")
               "heavy_lifting" o)))
    "Ford" "heavy_lifting" = Some 90 /\
  same_capabilities (robot_capabilities_ o)
    (robot_capabilities_
       (snd (delegateTask (mkWorld RecvTimeout sqlite_ok "now")
               "navigation" o))).
Proof.
  intros o. split.
  - apply (proj1 (delegateTask_table_effect
                    (mkWorld (recommends "Scion") sqlite_ok "now")
                    "heavy_lifting" o)).
    reflexivity.
  - apply (proj2 (proj2 (delegateTask_table_effect
                           (mkWorld RecvTimeout sqlite_ok "now")
                           "navigation" o))).
    reflexivity.
Defined.

(** X9: the capabilities that the checks insert never change a selection.
    On a well-formed table, [selectRobotByCapability] gives, for every
    capability, the same result after any [delegateTask] as before it, and
    the table is still a well-formed map. *)
Theorem selectRobotByCapability_after_delegateTask
  (w : World) (task_type : string) (o : Orchestrator) (capability : string) :
  StdMap.sorted (robot_capabilities_ o) ->
  StdMap.sorted (robot_capabilities_ (snd (delegateTask w task_type o))) /\
  fst (selectRobotByCapability capability (snd (delegateTask w task_type o)))
  = fst (selectRobotByCapability capability o).
Proof.
  intros Hs.
  pose proof (delegateTask_sorted w task_type o Hs) as Hs'.
  split; [exact Hs'|].
  destruct (delegateTask_capabilities_grow w task_type o)
    as (r & grows & Hgrow).
  pose proof (select_loop_same _ _ capability Hs Hs'
                (fun r0 s => grown_by_capable _ _ _ _ _ capability r0 s Hgrow))
    as Hsame.
  unfold selectRobotByCapability, bind, gets, throw, ret.
  rewrite Hsame. now destruct (String.eqb _ _).
Qed.

(** The theorem after the delegation that gives Scion a [heavy_lifting]
    entry of strength 0: the fallback for [heavy_lifting] is still Ford. *)
Lemma selectRobotByCapability_after_delegateTask_witness :
  let w := mkWorld (recommends "Scion") sqlite_ok "now" in
  let o := new_Orchestrator (mkLedger [] 0) in
  fst (selectRobotByCapability "heavy_lifting"
         (snd (delegateTask w "heavy_lifting" o)))
  = fst (selectRobotByCapability "heavy_lifting" o).
Proof.
  intros w o.
  apply (selectRobotByCapability_after_delegateTask w "heavy_lifting" o
           "heavy_lifting").
  repeat constructor.
Defined.

(** ** Reading the ledger *)

Lemma ledger_select_at_most_one task_id l :
  NoDup (map row_id (rows l)) -> (length (ledger_select task_id l) <= 1)%nat.
Proof.
  unfold ledger_select. induction (rows l) as [|r rs IH]; simpl; intros Hnd.
  - lia.
  - apply NoDup_cons_iff in Hnd as [Hnotin Hnd].
    destruct (Z.eqb_spec (row_id r) task_id) as [Heq|_]; [|now apply IH].
    simpl. replace (filter _ rs) with (@nil TaskRow); [simpl; lia|].
    symmetry. apply (ledger_select_none task_id (mkLedger rs 0)). simpl.
    intros r' Hin Hid. apply Hnotin. rewrite Heq, <- Hid.
    now apply in_map.
Qed.

Lemma ledger_select_id task_id l r :
  In r (ledger_select task_id l) -> row_id r = task_id.
Proof.
  unfold ledger_select. intros H. apply filter_In in H as [_ H].
  now apply Z.eqb_eq.
Qed.

(** X10: [getTaskStatus] only reads.  Whatever it returns or throws, the
    object is as before.  When it returns, the list is not empty, holds one
    record per row of the ledger with the requested id (exactly one on a
    well-formed ledger), and every record has the five keys [created_at],
    [id], [robot_id], [status], [task_type], its [id] being the requested
    id in decimal. *)
Theorem getTaskStatus_reads_only
  (answer : sqlite_answer) (task_id : Z) (o : Orchestrator) :
  is_int task_id ->
  snd (getTaskStatus answer task_id o) = o /\
  forall result,
    fst (getTaskStatus answer task_id o) = inr result ->
    result <> [] /\
    length result = length (ledger_select task_id (db_ o)) /\
    (ledger_wf (db_ o) -> length result = 1%nat) /\
    forall record, In record result ->
      StdMap.keys record
      = ["created_at"; "id"; "robot_id"; "status"; "task_type"] /\
      StdMap.find "id" record = Some (to_string task_id).
Proof.
  intros Hint. unfold getTaskStatus, bind, gets, throw, ret.
  destruct (prepare_error answer); [split; [reflexivity | discriminate]|].
  simpl.
  destruct (step_error answer); [split; [reflexivity | discriminate]|].
  destruct (map row_to_map (ledger_select task_id (db_ o))) as [|m ms] eqn:Hm;
    [split; [reflexivity | discriminate]|].
  split; [reflexivity|]. simpl. intros result [= <-].
  split; [discriminate|].
  assert (Hlen : length (m :: ms) = length (ledger_select task_id (db_ o))).
  { rewrite <- Hm. apply length_map. }
  split; [exact Hlen|]. split.
  - intros [_ Hnd].
    pose proof (ledger_select_at_most_one task_id (db_ o) Hnd) as Hle.
    rewrite <- Hlen in *. simpl in *. lia.
  - intros record Hin. rewrite <- Hm in Hin.
    apply in_map_iff in Hin as (r & <- & Hr).
    apply ledger_select_id in Hr.
    unfold row_to_map. simpl. rewrite Hr, (to_int32_int _ Hint).
    split; reflexivity.
Qed.

(** The theorem on the example of [main]. *)
Lemma getTaskStatus_reads_only_witness :
  let o := snd (delegateTask (mkWorld RecvTimeout sqlite_ok "now")
                  "heavy_lifting" (new_Orchestrator (mkLedger [] 0))) in
  snd (getTaskStatus sqlite_ok 1 o) = o.
Proof.
  intros o. apply (getTaskStatus_reads_only sqlite_ok 1 o).
  unfold is_int. simpl. lia.
Defined.

(** ** Outcomes of a dispatch *)

Lemma supported_dialect_dec lang :
  supported_dialect lang \/ ~ supported_dialect lang.
Proof.
  unfold supported_dialect.
  destruct (String.eqb_spec lang "KRL"); [tauto|].
  destruct (String.eqb_spec lang "RAPID"); [tauto|].
  destruct (String.eqb_spec lang "KAREL"); [tauto|].
  destruct (String.eqb_spec lang "VAL3"); tauto.
Qed.

(** The five ways through [sendToRobot]. *)
Lemma sendToRobot_cases ld robot_id task_data r :
  (StdMap.find robot_id (driver_handles_ r) = None /\
   sendToRobot ld robot_id task_data r
   = (inl (runtime_error ("No driver loaded for robot " ++ robot_id)), r))
  \/
  (exists h,
     StdMap.find robot_id (driver_handles_ r) = Some h /\
     StdMap.find robot_id (robot_language_map_ r) = None /\
     sendToRobot ld robot_id task_data r
     = (inl (runtime_error ("No language mapping for robot " ++ robot_id)),
        r))
  \/
  (exists h lang,
     StdMap.find robot_id (driver_handles_ r) = Some h /\
     StdMap.find robot_id (robot_language_map_ r) = Some lang /\
     ~ supported_dialect lang /\
     sendToRobot ld robot_id task_data r
     = (inl (runtime_error ("Unsupported robot language: " ++ lang)), r))
  \/
  (exists h lang err,
     StdMap.find robot_id (driver_handles_ r) = Some h /\
     StdMap.find robot_id (robot_language_map_ r) = Some lang /\
     supported_dialect lang /\
     dlsym ld h "execute_task" = inl err /\
     sendToRobot ld robot_id task_data r
     = (inl (runtime_error ("Failed to load function execute_task: " ++ err)),
        r))
  \/
  (exists h lang execute,
     StdMap.find robot_id (driver_handles_ r) = Some h /\
     StdMap.find robot_id (robot_language_map_ r) = Some lang /\
     supported_dialect lang /\
     dlsym ld h "execute_task" = inr execute /\
     sendToRobot ld robot_id task_data r
     = if fst (execute (c_str (lang ++ "_EXEC(" ++ task_data ++ ")")) 256%nat)
          =? 0
       then (inr tt,
             publish_response
               (snd (execute (c_str (lang ++ "_EXEC(" ++ task_data ++ ")"))
                       256%nat))
               (record_call h (c_str (lang ++ "_EXEC(" ++ task_data ++ ")")) r))
       else (inl (runtime_error
                    ("Driver execution failed for robot " ++ robot_id ++ ": "
                     ++ snd (execute
                               (c_str (lang ++ "_EXEC(" ++ task_data ++ ")"))
                               256%nat))),
             record_call h (c_str (lang ++ "_EXEC(" ++ task_data ++ ")")) r)).
Proof.
  assert (Hstart : forall h lang,
            StdMap.find robot_id (driver_handles_ r) = Some h ->
            StdMap.find robot_id (robot_language_map_ r) = Some lang ->
            sendToRobot ld robot_id task_data r
            = bind (translate lang task_data)
                (fun command =>
                   execute <- getDriverFunction ld h "execute_task" ;;
                   let '(result, response) := execute (c_str command) 256%nat in
                   modify (record_call h (c_str command)) ;;;
                   if negb (result =? 0)
                   then throw (runtime_error
                                 ("Driver execution failed for robot "
                                  ++ robot_id ++ ": " ++ response))
                   else modify (publish_response response)) r).
  { intros h lang Hh Hl. unfold sendToRobot.
    unfold bind at 1, gets at 1. rewrite Hh.
    unfold bind at 1, gets at 1. now rewrite Hl. }
  destruct (StdMap.find robot_id (driver_handles_ r)) as [h|] eqn:Hh.
  2:{ left. split; [reflexivity|].
      unfold sendToRobot, bind, gets, throw. now rewrite Hh. }
  right.
  destruct (StdMap.find robot_id (robot_language_map_ r)) as [lang|] eqn:Hl.
  2:{ left. exists h. split; [reflexivity|]. split; [reflexivity|].
      unfold sendToRobot. unfold bind at 1, gets at 1. rewrite Hh.
      unfold bind, gets, throw. now rewrite Hl. }
  right. specialize (Hstart h lang eq_refl eq_refl).
  destruct (supported_dialect_dec lang) as [Hsup|Hno].
  - right.
    destruct (dlsym ld h "execute_task") as [err|execute] eqn:Hsym.
    + left. exists h, lang, err.
      split; [reflexivity|]. split; [reflexivity|]. split; [exact Hsup|].
      split; [exact Hsym|]. rewrite Hstart. unfold bind at 1.
      rewrite (proj1 (translate_spec lang task_data r) Hsup).
      unfold bind at 1, getDriverFunction.
      change (c_str "execute_task") with "execute_task".
      now rewrite Hsym.
    + right. exists h, lang, execute.
      split; [reflexivity|]. split; [reflexivity|]. split; [exact Hsup|].
      split; [exact Hsym|]. rewrite Hstart. unfold bind at 1.
      rewrite (proj1 (translate_spec lang task_data r) Hsup).
      unfold bind at 1, getDriverFunction.
      change (c_str "execute_task") with "execute_task".
      rewrite Hsym. unfold ret at 1.
      destruct (execute _ _) as [result response]. simpl.
      unfold bind, modify, throw. now destruct (result =? 0).
  - left. exists h, lang.
    split; [reflexivity|]. split; [reflexivity|]. split; [exact Hno|].
    rewrite Hstart. unfold bind at 1.
    now rewrite (proj2 (translate_spec lang task_data r) Hno).
Qed.

(** X11: the effects of one [sendToRobot].  It never touches the loaded
    handles, the two configuration maps or the error log; it calls a driver
    at most once; when it returns, it has called the driver once and
    published exactly one response; when it throws, it has published
    nothing. *)
Theorem sendToRobot_effects
  (ld : Loader) (robot_id task_data : string) (r : RobotInterface) :
  let r' := snd (sendToRobot ld robot_id task_data r) in
  driver_handles_ r' = driver_handles_ r /\
  robot_driver_map_ r' = robot_driver_map_ r /\
  robot_language_map_ r' = robot_language_map_ r /\
  ros_errors r' = ros_errors r /\
  (exists calls, driver_calls r' = (driver_calls r ++ calls)%list /\
                 (length calls <= 1)%nat) /\
  match fst (sendToRobot ld robot_id task_data r) with
  | inr _ =>
      (exists call, driver_calls r' = (driver_calls r ++ [call])%list) /\
      (exists response,
         responses_published r' = (responses_published r ++ [response])%list)
  | inl _ => responses_published r' = responses_published r
  end.
Proof.
  destruct (sendToRobot_cases ld robot_id task_data r)
    as [[_ ->]|[(h & _ & _ & ->)|[(h & lang & _ & _ & _ & ->)
       |[(h & lang & err & _ & _ & _ & _ & ->)
        |(h & lang & execute & _ & _ & _ & _ & ->)]]]];
    try (simpl; repeat split; try reflexivity;
         exists []; rewrite app_nil_r; simpl; split; [reflexivity | lia]).
  destruct (fst (execute _ _) =? 0); simpl; repeat split;
    try reflexivity; eauto;
    eexists; (split; [reflexivity | simpl; lia]).
Qed.

(** X12: the failures of [sendToRobot] behind the driver lookup.  A robot
    with a loaded driver but no language mapping is refused with "No
    language mapping"; when the driver library does not export
    [execute_task] the call throws "Failed to load function" with the
    loader's text; in both cases no driver was called and the object is
    unchanged.  When the driver returns a value other than 0, the call
    throws "Driver execution failed" with the driver's response, after
    exactly one driver call and without publishing. *)
Theorem sendToRobot_failures
  (ld : Loader) (robot_id task_data : string) (r : RobotInterface)
  (h : handle) :
  StdMap.find robot_id (driver_handles_ r) = Some h ->
  (StdMap.find robot_id (robot_language_map_ r) = None ->
   sendToRobot ld robot_id task_data r
   = (inl (runtime_error ("No language mapping for robot " ++ robot_id)), r))
  /\
  (forall lang err,
     StdMap.find robot_id (robot_language_map_ r) = Some lang ->
     supported_dialect lang ->
     dlsym ld h "execute_task" = inl err ->
     sendToRobot ld robot_id task_data r
     = (inl (runtime_error ("Failed to load function execute_task: " ++ err)),
        r))
  /\
  (forall lang execute,
     StdMap.find robot_id (robot_language_map_ r) = Some lang ->
     supported_dialect lang ->
     dlsym ld h "execute_task" = inr execute ->
     fst (execute (c_str (lang ++ "_EXEC(" ++ task_data ++ ")")) 256%nat)
     <> 0 ->
     sendToRobot ld robot_id task_data r
     = (inl (runtime_error
               ("Driver execution failed for robot " ++ robot_id ++ ": "
                ++ snd (execute (c_str (lang ++ "_EXEC(" ++ task_data ++ ")"))
                          256%nat))),
        record_call h (c_str (lang ++ "_EXEC(" ++ task_data ++ ")")) r)).
Proof.
  intros Hh.
  destruct (sendToRobot_cases ld robot_id task_data r)
    as [[Hn _]|[(h1 & Hh1 & Hl1 & Hs)|[(h1 & lang1 & Hh1 & Hl1 & Hno & Hs)
       |[(h1 & lang1 & err1 & Hh1 & Hl1 & Hsup & Hsym & Hs)
        |(h1 & lang1 & ex1 & Hh1 & Hl1 & Hsup & Hsym & Hs)]]]];
    try (rewrite Hh in Hn; discriminate Hn);
    rewrite Hh in Hh1; injection Hh1 as <-.
  - repeat split.
    + intros _. exact Hs.
    + intros lang err Hl. rewrite Hl in Hl1. discriminate Hl1.
    + intros lang ex Hl. rewrite Hl in Hl1. discriminate Hl1.
  - repeat split.
    + intros Hl. rewrite Hl in Hl1. discriminate Hl1.
    + intros lang err Hl Hsup. rewrite Hl in Hl1. injection Hl1 as <-.
      contradiction.
    + intros lang ex Hl Hsup. rewrite Hl in Hl1. injection Hl1 as <-.
      contradiction.
  - repeat split.
    + intros Hl. rewrite Hl in Hl1. discriminate Hl1.
    + intros lang err Hl _ Herr. rewrite Hl in Hl1. injection Hl1 as <-.
      rewrite Herr in Hsym. injection Hsym as <-. exact Hs.
    + intros lang ex Hl _ Hex. rewrite Hex in Hsym. discriminate Hsym.
  - repeat split.
    + intros Hl. rewrite Hl in Hl1. discriminate Hl1.
    + intros lang err Hl _ Herr. rewrite Herr in Hsym. discriminate Hsym.
    + intros lang ex Hl _ Hex Hrc. rewrite Hl in Hl1. injection Hl1 as <-.
      rewrite Hex in Hsym. injection Hsym as <-. rewrite Hs.
      apply Z.eqb_neq in Hrc. now rewrite Hrc.
Qed.

(** The theorem on a robot whose library lacks the entry point, and on a
    driver that reports a failure. *)
Lemma sendToRobot_failures_witness :
  let r := mkRobotInterface [("Ford", 7%nat)] [] [("Ford", "KRL")] [] [] [] in
  sendToRobot (mkLoader (fun _ => true) (fun _ => inr 7%nat)
                 (fun _ _ => inl "undefined symbol"))
    "Ford" "weld" r
  = (inl (runtime_error
            "Failed to load function execute_task: undefined symbol"), r)
  /\
  sendToRobot (mkLoader (fun _ => true) (fun _ => inr 7%nat)
                 (fun _ _ => inr (fun _ _ => (3, "gripper jammed"))))
    "Ford" "weld" r
  = (inl (runtime_error
            "Driver execution failed for robot Ford: gripper jammed"),
     record_call 7%nat "KRL_EXEC(weld)" r).
Proof.
  intros r. split.
  - apply (proj1 (proj2 (sendToRobot_failures _ "Ford" "weld" r 7%nat
                           eq_refl)) "KRL" "undefined symbol");
      [reflexivity | now left | reflexivity].
  - apply (proj2 (proj2 (sendToRobot_failures _ "Ford" "weld" r 7%nat
                           eq_refl)) "KRL" (fun _ _ => (3, "gripper jammed")));
      [reflexivity | now left | reflexivity | discriminate].
Defined.

(** X13: [isRobotAvailable] answers for the lookups of [sendToRobot].  For a
    robot that is not available, [sendToRobot] throws before any driver is
    called and leaves the object unchanged; for a robot that is available,
    neither of the two lookup errors is thrown. *)
Theorem isRobotAvailable_sendToRobot
  (ld : Loader) (robot_id task_data : string) (r : RobotInterface) :
  (isRobotAvailable r robot_id = false ->
   exists e, sendToRobot ld robot_id task_data r = (inl e, r) /\
             (NoDriverLoaded robot_id e \/
              e = runtime_error ("No language mapping for robot "
                                 ++ robot_id))) /\
  (isRobotAvailable r robot_id = true ->
   exists h lang,
     StdMap.find robot_id (driver_handles_ r) = Some h /\
     StdMap.find robot_id (robot_language_map_ r) = Some lang /\
     (supported_dialect lang \/
      exists e, sendToRobot ld robot_id task_data r = (inl e, r) /\
                UnknownDialect lang e)).
Proof.
  unfold isRobotAvailable.
  destruct (sendToRobot_cases ld robot_id task_data r)
    as [[Hn Hs]|[(h & Hh & Hl & Hs)|[(h & lang & Hh & Hl & Hno & Hs)
       |[(h & lang & err & Hh & Hl & Hsup & _ & _)
        |(h & lang & ex & Hh & Hl & Hsup & _ & _)]]]];
    try rewrite Hn; try rewrite Hh; try rewrite Hl; split;
    try discriminate; intros _.
  - eexists. split; [exact Hs|]. now left.
  - eexists. split; [exact Hs|]. now right.
  - exists h, lang. repeat split. right. eexists. split; [exact Hs|].
    reflexivity.
  - exists h, lang. repeat split. now left.
  - exists h, lang. repeat split. now left.
Qed.

(** The theorem after a start on which only Ford's driver loaded: a task
    for Scion is refused without touching anything. *)
Lemma isRobotAvailable_sendToRobot_witness :
  let ld := mkLoader
              (fun path => String.eqb path "backend/c/drivers/ford_driver.so")
              (fun _ => inr 7%nat)
              (fun _ _ => inl "undefined symbol") in
  exists e,
    sendToRobot ld "Scion" "weld" (new_RobotInterface ld)
    = (inl e, new_RobotInterface ld) /\
    (NoDriverLoaded "Scion" e \/
     e = runtime_error ("No language mapping for robot " ++ "Scion")).
Proof.
  intros ld.
  apply (proj1 (isRobotAvailable_sendToRobot ld "Scion" "weld"
                  (new_RobotInterface ld))).
  reflexivity.
Defined.

(** X14: what the constructor leaves.  Whatever the loader answers, the two
    configuration maps are the hardcoded ones, and a robot has a handle
    exactly when it is configured, its driver file exists and [dlopen]
    returned that handle; a robot outside the configuration is never
    available. *)
Theorem RobotInterface_ctor_result (ld : Loader) :
  let r := new_RobotInterface ld in
  robot_driver_map_ r
  = [ ("Ford", "backend/c/drivers/ford_driver.so");
      ("Scion", "backend/assembly/drivers/scion_driver.so") ] /\
  robot_language_map_ r = [ ("Ford", "KRL"); ("Scion", "RAPID") ] /\
  (forall robot_id h,
     StdMap.find robot_id (driver_handles_ r) = Some h <->
     exists driver_path,
       StdMap.find robot_id (robot_driver_map_ r) = Some driver_path /\
       fs_exists ld driver_path = true /\
       dlopen ld (c_str driver_path) = inr h) /\
  (forall robot_id,
     StdMap.find robot_id (robot_driver_map_ r) = None ->
     isRobotAvailable r robot_id = false).
Proof.
  unfold new_RobotInterface.
  set (blank := mkRobotInterface [] [] [] [] [] []).
  set (r0 := snd (initRobotMappings blank)).
  assert (Hctor : RobotInterface_ctor ld blank
                  = for_each (load_entry ld) (robot_driver_map_ r0) r0)
    by reflexivity.
  destruct (load_loop_spec ld (robot_driver_map_ r0)) with (r := r0)
    as (r' & Hloop & Hd & Hl & Hh).
  { repeat constructor; simpl; intuition discriminate. }
  rewrite Hctor, Hloop. cbv zeta. cbn [snd].
  split; [rewrite Hd; reflexivity|]. split; [rewrite Hl; reflexivity|].
  assert (Hhandles : forall robot_id h,
     StdMap.find robot_id (driver_handles_ r') = Some h <->
     exists driver_path,
       StdMap.find robot_id (robot_driver_map_ r') = Some driver_path /\
       fs_exists ld driver_path = true /\
       dlopen ld (c_str driver_path) = inr h).
  { intros robot_id h. rewrite Hh, Hd.
    destruct (StdMap.find robot_id (robot_driver_map_ r0)) as [path|].
    - destruct (fs_exists ld path) eqn:Hex.
      + destruct (dlopen ld (c_str path)) as [err|h'] eqn:Hopen.
        * split; [discriminate|].
          intros (p & [= <-] & _ & Hp). rewrite Hopen in Hp. discriminate Hp.
        * split.
          -- intros [= <-]. exists path. now repeat split.
          -- intros (p & [= <-] & _ & Hp). rewrite Hopen in Hp.
             now injection Hp as <-.
      + split; [discriminate|].
        intros (p & [= <-] & Hp & _). rewrite Hex in Hp. discriminate Hp.
    - split; [discriminate|]. intros (p & Hp & _). discriminate Hp. }
  split; [exact Hhandles|].
  intros robot_id Hnone. unfold isRobotAvailable.
  destruct (StdMap.find robot_id (driver_handles_ r')) as [h|] eqn:Hf;
    [|reflexivity].
  apply Hhandles in Hf as (p & Hp & _). rewrite Hnone in Hp. discriminate Hp.
Qed.

(** The theorem on a start where both drivers load: a robot that is not
    configured is not available. *)
Lemma RobotInterface_ctor_result_witness :
  isRobotAvailable
    (new_RobotInterface (mkLoader (fun _ => true) (fun _ => inr 7%nat)
                           (fun _ _ => inl "undefined symbol")))
    "Nobody" = false.
Proof.
  apply (proj2 (proj2 (proj2 (RobotInterface_ctor_result
                                (mkLoader (fun _ => true) (fun _ => inr 7%nat)
                                   (fun _ _ => inl "undefined symbol")))))
           "Nobody").
  reflexivity.
Defined.

(** ** The task channel, from the subscriber's side *)

Lemma taskCallback_carries ld type_error msg robot_id task_type n :
  carries msg robot_id task_type ->
  taskCallback ld type_error msg n
  = (inr tt,
     logged robot_id task_type n
       (sendToRobot ld robot_id task_type (interface n))).
Proof.
  intros (task_data & -> & Hc1 & Hc2 & Ha1 & Ha2).
  unfold taskCallback, try_catch, logged. rewrite Hc1, Hc2. simpl.
  unfold bind at 1. rewrite Ha1. simpl json_get_checked. unfold ret at 1.
  unfold bind at 1. rewrite Ha2. simpl json_get_checked. unfold ret at 1.
  unfold bind, lift, modify.
  destruct (sendToRobot ld robot_id task_type (interface n)) as [[e|[]] r'];
    reflexivity.
Qed.

Lemma carries_or_not msg :
  (exists robot_id task_type, carries msg robot_id task_type) \/
  (forall robot_id task_type, ~ carries msg robot_id task_type).
Proof.
  destruct msg as [text|task_data].
  { right. intros r t (j & H & _). discriminate H. }
  destruct (json_contains task_data "robot_id") eqn:Hc1.
  2:{ right. intros r t (j & [= <-] & H & _). congruence. }
  destruct (json_contains task_data "task_type") eqn:Hc2.
  2:{ right. intros r t (j & [= <-] & _ & H & _). congruence. }
  destruct (json_at task_data "robot_id") as [| | |r| |] eqn:Ha1;
    try (right; intros r' t (j & [= <-] & _ & _ & H & _); congruence).
  destruct (json_at task_data "task_type") as [| | |t| |] eqn:Ha2;
    try (right; intros r' t' (j & [= <-] & _ & _ & _ & H); congruence).
  left. exists r, t, task_data. now repeat split.
Qed.

(** X15: [taskCallback] never lets an exception out, and a message that does
    not name a robot and a task type as strings - unparsable text, a
    missing key, a value of another type - causes nothing but one
    [ROS_ERROR] line: no driver is called, nothing is published. *)
Theorem taskCallback_rejects
  (ld : Loader) (type_error : json -> string) (msg : ros_message)
  (n : RosNode) :
  fst (taskCallback ld type_error msg n) = inr tt /\
  ((forall robot_id task_type, ~ carries msg robot_id task_type) ->
   exists line,
     snd (taskCallback ld type_error msg n) = node_error line n).
Proof.
  destruct (carries_or_not msg) as [(r & t & Hc)|Hno].
  - split.
    + now rewrite (taskCallback_carries _ _ _ _ _ _ Hc).
    + intros Hno. now elim (Hno r t).
  - assert (H : exists line,
              taskCallback ld type_error msg n = (inr tt, node_error line n)).
    { unfold taskCallback, try_catch.
      destruct msg as [text|task_data]; simpl.
      { eexists. reflexivity. }
      destruct (json_contains task_data "robot_id") eqn:Hc1; simpl;
        [|eexists; reflexivity].
      destruct (json_contains task_data "task_type") eqn:Hc2; simpl;
        [|eexists; reflexivity].
      unfold bind at 1.
      destruct (json_at task_data "robot_id") as [| | |r| |] eqn:Ha1;
        simpl; try (eexists; reflexivity).
      unfold bind at 1.
      destruct (json_at task_data "task_type") as [| | |t| |] eqn:Ha2;
        simpl; try (eexists; reflexivity).
      exfalso. apply (Hno r t). exists task_data. now repeat split. }
    destruct H as [line H]. rewrite H. split; [reflexivity|].
    intros _. now exists line.
Qed.

(** The theorem on a message whose [robot_id] is a number. *)
Lemma taskCallback_rejects_witness :
  let n := mkRosNode (mkRobotInterface [("Ford", 7%nat)] []
                        [("Ford", "KRL")] [] [] []) [] in
  let msg := Parsed (JObject [("robot_id", JNumber 7);
                              ("task_type", JString "weld")]) in
  exists line,
    snd (taskCallback
           (mkLoader (fun _ => true) (fun _ => inr 7%nat)
              (fun _ _ => inl "undefined symbol"))
           (fun _ => "type must be string") msg n)
    = node_error line n.
Proof.
  intros n msg.
  apply (proj2 (taskCallback_rejects _ _ msg n)).
  intros r t (j & [= <-] & _ & _ & H & _). discriminate H.
Defined.

(** X16: the task channel end to end.  The message a successful
    [delegateTask] publishes names the selected robot and the task type,
    and [taskCallback], given that message as parsed back from its text,
    does what [sendToRobot] does for that robot and task type: the same
    driver call and the same response published, then one [ROS_INFO] line if
    it returned, and one [ROS_ERROR] line with the text of the exception if
    it threw. *)
Theorem task_channel_end_to_end
  (w : World) (task_type : string) (o o' : Orchestrator) :
  delegateTask w task_type o = (inr tt, o') ->
  exists robot_id,
    fst (queryAIEngine (ai_engine w) task_type o) = inr robot_id /\
    task_published o'
    = (task_published o ++ [dispatch_request robot_id task_type])%list /\
    forall ld type_error n,
      taskCallback ld type_error
        (Parsed (dispatch_request robot_id task_type)) n
      = (inr tt,
         logged robot_id task_type n
           (sendToRobot ld robot_id task_type (interface n))).
Proof.
  intros Hd.
  destruct (delegateTask_success _ _ _ _ Hd)
    as (_ & robot_id & o1 & Hq & _ & _ & Hpub & _ & _).
  exists robot_id. split; [now rewrite Hq|]. split; [exact Hpub|].
  intros ld type_error n. apply taskCallback_carries.
  eexists. now repeat split.
Qed.

(** The theorem on the scenario of section 8 followed by the subscriber:
    [heavy_lifting] is delegated to Ford and the message published makes
    the interface call Ford's driver with [KRL_EXEC(heavy_lifting)]. *)
Lemma task_channel_end_to_end_witness :
  let w := mkWorld RecvTimeout sqlite_ok "now" in
  let o := new_Orchestrator (mkLedger [] 0) in
  exists robot_id,
    fst (queryAIEngine (ai_engine w) "heavy_lifting" o) = inr robot_id /\
    task_published (snd (delegateTask w "heavy_lifting" o))
    = (task_published o ++ [dispatch_request robot_id "heavy_lifting"])%list /\
    forall ld type_error n,
      taskCallback ld type_error
        (Parsed (dispatch_request robot_id "heavy_lifting")) n
      = (inr tt,
         logged robot_id "heavy_lifting" n
           (sendToRobot ld robot_id "heavy_lifting" (interface n))).
Proof.
  intros w o.
  apply (task_channel_end_to_end w "heavy_lifting" o
           (snd (delegateTask w "heavy_lifting" o))).
  reflexivity.
Defined.

(** ** driver.c *)

Lemma snprintf_length size text :
  (String.length (snprintf size text) <= size - 1)%nat.
Proof. apply substring_length_le. Qed.

Lemma get_robot_type_supported fmt :
  (supported_dialect fmt -> Driver.get_robot_type fmt <> Driver.ROBOT_UNKNOWN)
  /\ (~ supported_dialect fmt ->
      Driver.get_robot_type fmt = Driver.ROBOT_UNKNOWN).
Proof.
  unfold Driver.get_robot_type, supported_dialect. split.
  - intros [->|[->|[->| ->]]]; discriminate.
  - intros Hno.
    destruct (String.eqb_spec fmt "KRL"); [tauto|].
    destruct (String.eqb_spec fmt "RAPID"); [tauto|].
    destruct (String.eqb_spec fmt "KAREL"); [tauto|].
    destruct (String.eqb_spec fmt "VAL3"); [tauto | reflexivity].
Qed.

Lemma execute_on_robot_supported (cmd : Driver.RobotCommand) :
  supported_dialect (Driver.format cmd) ->
  Driver.execute_on_robot cmd
  = (1, Driver.mkDriverResponse "success"
          (snprintf Driver.MAX_RESPONSE_LENGTH
             (Driver.format cmd ++ " executed for " ++ Driver.robot_id cmd
              ++ ": " ++ Driver.command cmd))).
Proof.
  intros [H|[H|[H|H]]]; unfold Driver.execute_on_robot; rewrite H;
    reflexivity.
Qed.

Lemma execute_on_robot_unsupported (cmd : Driver.RobotCommand) :
  ~ supported_dialect (Driver.format cmd) ->
  Driver.execute_on_robot cmd
  = (0, Driver.mkDriverResponse "error"
          (snprintf Driver.MAX_RESPONSE_LENGTH
             ("Unsupported format: " ++ Driver.format cmd))).
Proof.
  intros Hno. unfold Driver.execute_on_robot.
  now rewrite (proj2 (get_robot_type_supported _) Hno).
Qed.

(** X17: [execute_on_robot] succeeds exactly on the four formats, spelled in
    capitals.  On one of them it returns 1 with status [success] and the
    message made of the format, [ executed for ], the robot id and the
    command; on anything else it returns 0 with status [error] and the
    message [Unsupported format: ] followed by the format.  The message
    never exceeds 511 characters, however long the command is. *)
Theorem execute_on_robot_outcomes (cmd : Driver.RobotCommand) :
  (supported_dialect (Driver.format cmd) ->
   Driver.execute_on_robot cmd
   = (1, Driver.mkDriverResponse "success"
           (snprintf Driver.MAX_RESPONSE_LENGTH
              (Driver.format cmd ++ " executed for " ++ Driver.robot_id cmd
               ++ ": " ++ Driver.command cmd)))) /\
  (~ supported_dialect (Driver.format cmd) ->
   Driver.execute_on_robot cmd
   = (0, Driver.mkDriverResponse "error"
           (snprintf Driver.MAX_RESPONSE_LENGTH
              ("Unsupported format: " ++ Driver.format cmd)))) /\
  (String.length (Driver.message (snd (Driver.execute_on_robot cmd)))
   <= 511)%nat.
Proof.
  split; [|split].
  - apply execute_on_robot_supported.
  - apply execute_on_robot_unsupported.
  - unfold Driver.execute_on_robot, Driver.executed.
    destruct (Driver.get_robot_type (Driver.format cmd));
      cbn [snd Driver.message]; apply (snprintf_length 512).
Qed.

(** The theorem on a format in lower case. *)
Lemma execute_on_robot_outcomes_witness :
  Driver.execute_on_robot (Driver.mkRobotCommand "Ford" "krl" "weld")
  = (0, Driver.mkDriverResponse "error" "Unsupported format: krl").
Proof.
  apply (proj1 (proj2 (execute_on_robot_outcomes
                         (Driver.mkRobotCommand "Ford" "krl" "weld")))).
  intros [H|[H|[H|H]]]; discriminate H.
Defined.

Lemma substring_short (s : string) : forall n : nat,
  (String.length (substring 0 n s) < n)%nat -> substring 0 n s = s.
Proof.
  induction s as [|c s IH]; intros [|n] H; simpl in *; try reflexivity;
    try lia.
  f_equal. apply IH. lia.
Qed.

Lemma strncpy_field_empty size src :
  c_str src = EmptyString -> strncpy_field size src = EmptyString.
Proof.
  unfold strncpy_field. intros ->. now destruct (size - 1)%nat.
Qed.

Lemma validate_command_ok id fmt cmd :
  Driver.validate_command
    (Driver.mkRobotCommand (strncpy_field 32 id) (strncpy_field 16 fmt)
       (strncpy_field Driver.MAX_COMMAND_LENGTH cmd)) = 1
  <-> c_str id <> EmptyString /\ c_str fmt <> EmptyString
      /\ c_str cmd <> EmptyString.
Proof.
  assert (Hz : forall size src, (2 <= size)%nat ->
            (String.length (strncpy_field size src) =? 0)%nat = true
            <-> c_str src = EmptyString).
  { intros size src Hsize. split.
    - intros H. apply Nat.eqb_eq in H.
      destruct (string_dec (c_str src) EmptyString) as [He|Hne];
        [exact He|].
      now apply (strncpy_field_nonempty size src Hsize) in Hne.
    - intros H. now rewrite (strncpy_field_empty _ _ H). }
  assert (H32 : (2 <= 32)%nat) by lia.
  assert (H16 : (2 <= 16)%nat) by lia.
  assert (H1024 : (2 <= Driver.MAX_COMMAND_LENGTH)%nat)
    by (unfold Driver.MAX_COMMAND_LENGTH; lia).
  unfold Driver.validate_command. cbn [Driver.robot_id Driver.format
                                        Driver.command].
  destruct (String.length (strncpy_field 32 id) =? 0)%nat eqn:E1.
  { apply (Hz 32%nat id H32) in E1. split; [discriminate | tauto]. }
  destruct (String.length (strncpy_field 16 fmt) =? 0)%nat eqn:E2.
  { apply (Hz 16%nat fmt H16) in E2. split; [discriminate | tauto]. }
  destruct (String.length (strncpy_field Driver.MAX_COMMAND_LENGTH cmd) =? 0)%nat
    eqn:E3.
  { apply (Hz _ cmd H1024) in E3. split; [discriminate | tauto]. }
  split; [|reflexivity]. intros _.
  repeat split; intros He.
  - apply (Hz 32%nat id H32) in He. congruence.
  - apply (Hz 16%nat fmt H16) in He. congruence.
  - apply (Hz _ cmd H1024) in He. congruence.
Qed.

Lemma supported_strncpy fmt :
  supported_dialect (strncpy_field 16 fmt) <-> supported_dialect (c_str fmt).
Proof.
  unfold strncpy_field. change (16 - 1)%nat with 15%nat.
  split.
  - intros H.
    rewrite <- (substring_short (c_str fmt) 15); [exact H|].
    destruct H as [->|[->|[->| ->]]]; simpl; lia.
  - intros H. rewrite substring_whole; [exact H|].
    destruct H as [->|[->|[->| ->]]]; simpl; lia.
Qed.

Lemma supported_dialect_decide fmt :
  supported_dialect fmt \/ ~ supported_dialect fmt.
Proof.
  unfold supported_dialect.
  destruct (string_dec fmt "KRL"); [tauto|].
  destruct (string_dec fmt "RAPID"); [tauto|].
  destruct (string_dec fmt "KAREL"); [tauto|].
  destruct (string_dec fmt "VAL3"); tauto.
Qed.

Lemma supported_dialect_nonempty fmt :
  supported_dialect fmt -> fmt <> EmptyString.
Proof. intros [->|[->|[->| ->]]]; discriminate. Qed.

Lemma strncpy_supported fmt :
  supported_dialect (c_str fmt) -> strncpy_field 16 fmt = c_str fmt.
Proof.
  intros H. unfold strncpy_field. apply substring_whole.
  destruct H as [->|[->|[->| ->]]]; simpl; lia.
Qed.

(** The response [execute_on_robot] fills in for a request that can be
    carried out. *)
Lemma process_robot_command_well_formed curl id fmt cmd output_size :
  DriverMain.curl_easy_init_ok curl = true ->
  c_str id <> EmptyString -> c_str cmd <> EmptyString ->
  supported_dialect (c_str fmt) ->
  let response :=
    Driver.mkDriverResponse "success"
      (snprintf Driver.MAX_RESPONSE_LENGTH
         (c_str fmt ++ " executed for " ++ strncpy_field 32 id ++ ": "
          ++ strncpy_field Driver.MAX_COMMAND_LENGTH cmd)) in
  DriverMain.process_robot_command curl
    (DriverMain.JsonFields (Some id) (Some fmt) (Some cmd)) output_size
  = if DriverMain.curl_easy_perform_ok curl
    then DriverMain.mkOutcome 1
           (snprintf output_size
              (DriverMain.status_json "success" (Driver.message response)))
           [response]
    else DriverMain.mkOutcome 0
           (snprintf output_size
              (DriverMain.status_json "error" "Failed to send response"))
           [response].
Proof.
  intros Hinit Hid Hcmd Hfmt response.
  unfold DriverMain.process_robot_command. rewrite Hinit. cbn [negb].
  assert (Hvalid : Driver.validate_command
            (Driver.mkRobotCommand (strncpy_field 32 id)
               (strncpy_field 16 fmt)
               (strncpy_field Driver.MAX_COMMAND_LENGTH cmd)) = 1).
  { apply validate_command_ok. repeat split; try assumption.
    now apply supported_dialect_nonempty. }
  rewrite Hvalid. change (1 =? 0) with false. cbv iota.
  rewrite execute_on_robot_supported
    by (cbn [Driver.format]; now apply supported_strncpy).
  cbn [Driver.format Driver.robot_id Driver.command].
  rewrite (strncpy_supported fmt Hfmt).
  change (1 =? 0) with false. cbv iota.
  unfold DriverMain.send_response.
  destruct (DriverMain.curl_easy_perform_ok curl); reflexivity.
Qed.

Lemma process_robot_command_rejected curl input output_size :
  DriverMain.curl_easy_init_ok curl = true ->
  ~ well_formed_request input ->
  exists text response,
    DriverMain.process_robot_command curl input output_size
    = DriverMain.mkOutcome 0
        (snprintf output_size (DriverMain.status_json "error" text))
        [response]
    /\ Driver.status response = "error"
    /\ (String.length (Driver.message response) <= 511)%nat.
Proof.
  intros Hinit Hno.
  unfold DriverMain.process_robot_command. rewrite Hinit. cbn [negb].
  assert (Herr : forall text,
            Driver.status (DriverMain.error_response text) = "error"
            /\ (String.length
                  (Driver.message (DriverMain.error_response text))
                <= 511)%nat).
  { intros text. split; [reflexivity | apply (snprintf_length 512)]. }
  destruct input as [|[id|] [fmt|] [cmd|]];
    try (eexists; eexists; split; [reflexivity | apply Herr]).
  set (c := Driver.mkRobotCommand _ _ _).
  destruct (Driver.validate_command c =? 0) eqn:Hv.
  { eexists; eexists; split; [reflexivity | apply Herr]. }
  assert (Hvalid : Driver.validate_command c = 1).
  { unfold Driver.validate_command in *.
    destruct (String.length (Driver.robot_id c) =? 0)%nat;
      [discriminate Hv|].
    destruct (String.length (Driver.format c) =? 0)%nat;
      [discriminate Hv|].
    destruct (String.length (Driver.command c) =? 0)%nat;
      [discriminate Hv | reflexivity]. }
  apply validate_command_ok in Hvalid. destruct Hvalid as (Hid & _ & Hcmd).
  assert (Hfmt : ~ supported_dialect (Driver.format c)).
  { intros Hs. apply Hno. exists id, fmt, cmd.
    repeat split; try assumption. now apply supported_strncpy. }
  rewrite (execute_on_robot_unsupported c Hfmt).
  change (0 =? 0) with true. cbv iota.
  eexists; eexists; split; [reflexivity|].
  split; [reflexivity | apply (snprintf_length 512)].
Qed.

Lemma well_formed_request_decide input :
  well_formed_request input \/ ~ well_formed_request input.
Proof.
  destruct input as [|[id|] [fmt|] [cmd|]];
    try (right; intros (i & f & c & H & _); discriminate H).
  destruct (string_dec (c_str id) EmptyString) as [Hid|Hid].
  { right. intros (i & f & c & H & Hi & _). injection H as <- <- <-.
    contradiction. }
  destruct (string_dec (c_str cmd) EmptyString) as [Hcmd|Hcmd].
  { right. intros (i & f & c & H & _ & Hc & _). injection H as <- <- <-.
    contradiction. }
  destruct (supported_dialect_decide (c_str fmt)) as [Hfmt|Hfmt].
  - left. exists id, fmt, cmd. repeat split; assumption.
  - right. intros (i & f & c & H & _ & _ & Hf). injection H as <- <- <-.
    contradiction.
Qed.

(** X18: [process_robot_command] returns 1 exactly when libcurl gave a handle,
    the request has its three members with a robot id and a command that are
    not empty and a format among the four, and the response could be posted.
    In every other case it returns 0. *)
Theorem process_robot_command_returns curl input output_size :
  (DriverMain.returned
     (DriverMain.process_robot_command curl input output_size) = 1
   <-> DriverMain.curl_easy_init_ok curl = true
       /\ well_formed_request input
       /\ DriverMain.curl_easy_perform_ok curl = true)
  /\ (DriverMain.returned
        (DriverMain.process_robot_command curl input output_size) = 1
      \/ DriverMain.returned
           (DriverMain.process_robot_command curl input output_size) = 0).
Proof.
  destruct (DriverMain.curl_easy_init_ok curl) eqn:Hinit.
  2:{ unfold DriverMain.process_robot_command. rewrite Hinit. cbn.
      split; [|now right]. split; [discriminate|].
      intros (H & _); discriminate H. }
  destruct (well_formed_request_decide input) as [Hwf|Hno].
  - destruct Hwf as (id & fmt & cmd & -> & Hid & Hcmd & Hfmt).
    rewrite (process_robot_command_well_formed curl id fmt cmd output_size
               Hinit Hid Hcmd Hfmt).
    destruct (DriverMain.curl_easy_perform_ok curl); cbn.
    + split; [|now left]. split; [|reflexivity]. intros _.
      repeat split. exists id, fmt, cmd. repeat split; assumption.
    + split; [|now right]. split; [discriminate|].
      intros (_ & _ & H); discriminate H.
  - destruct (process_robot_command_rejected curl input output_size
                Hinit Hno) as (text & response & -> & _).
    cbn. split; [|now right]. split; [discriminate|].
    intros (_ & H & _). contradiction.
Qed.

(** The theorem on a request for Ford in KRL, with libcurl working. *)
Lemma process_robot_command_returns_witness :
  DriverMain.returned
    (DriverMain.process_robot_command (DriverMain.mkCurl true true)
       (DriverMain.JsonFields (Some "Ford") (Some "KRL") (Some "weld")) 512)
  = 1.
Proof.
  apply (proj1 (process_robot_command_returns (DriverMain.mkCurl true true)
                  (DriverMain.JsonFields (Some "Ford") (Some "KRL")
                     (Some "weld")) 512)).
  split; [reflexivity|]. split; [|reflexivity].
  exists "Ford", "KRL", "weld".
  repeat split; [discriminate | discriminate | now left].
Defined.

(** X19: with room for at least the terminator in the buffer,
    [process_robot_command] leaves in it a text that fits; the text is the
    [error] object whenever 0 is returned, and when 1 is returned it is the
    [success] object whose message names the format, the robot id cut to 31
    characters and the command cut to 1023, the whole message cut to 511. *)
Theorem process_robot_command_output curl input output_size :
  (1 <= output_size)%nat ->
  let o := DriverMain.process_robot_command curl input output_size in
  (String.length (DriverMain.output o) < output_size)%nat
  /\ (DriverMain.returned o = 0 ->
      exists text,
        DriverMain.output o
        = snprintf output_size (DriverMain.status_json "error" text))
  /\ (forall id fmt cmd,
        input = DriverMain.JsonFields (Some id) (Some fmt) (Some cmd) ->
        DriverMain.returned o = 1 ->
        DriverMain.output o
        = snprintf output_size
            (DriverMain.status_json "success"
               (snprintf Driver.MAX_RESPONSE_LENGTH
                  (c_str fmt ++ " executed for " ++ strncpy_field 32 id
                   ++ ": " ++ strncpy_field Driver.MAX_COMMAND_LENGTH cmd)))).
Proof.
  intros Hsize o.
  assert (Hfit : forall text,
            (String.length (snprintf output_size text) < output_size)%nat).
  { intros text. pose proof (snprintf_length output_size text). lia. }
  subst o.
  destruct (DriverMain.curl_easy_init_ok curl) eqn:Hinit.
  2:{ unfold DriverMain.process_robot_command. rewrite Hinit.
      cbn [negb DriverMain.output DriverMain.returned].
      split; [apply Hfit|]. split.
      - intros _. eexists. reflexivity.
      - intros id fmt cmd _ H. discriminate H. }
  destruct (well_formed_request_decide input) as [Hwf|Hno].
  - destruct Hwf as (id & fmt & cmd & -> & Hid & Hcmd & Hfmt).
    rewrite (process_robot_command_well_formed curl id fmt cmd output_size
               Hinit Hid Hcmd Hfmt).
    destruct (DriverMain.curl_easy_perform_ok curl);
      cbn [DriverMain.output DriverMain.returned Driver.message].
    + split; [apply Hfit|]. split; [discriminate|].
      intros id' fmt' cmd' H _. injection H as <- <- <-. reflexivity.
    + split; [apply Hfit|]. split.
      * intros _. eexists. reflexivity.
      * intros id' fmt' cmd' _ H. discriminate H.
  - destruct (process_robot_command_rejected curl input output_size
                Hinit Hno) as (text & response & -> & _).
    cbn [DriverMain.output DriverMain.returned].
    split; [apply Hfit|]. split.
    + intros _. now exists text.
    + intros id fmt cmd _ H. discriminate H.
Qed.

(** The theorem on a buffer of sixteen bytes, which cuts the answer to a
    request for a robot works on. *)
Lemma process_robot_command_output_witness :
  DriverMain.output
    (DriverMain.process_robot_command (DriverMain.mkCurl true true)
       (DriverMain.JsonFields (Some "Ford") (Some "KRL") (Some "weld")) 16)
  = snprintf 16
      (DriverMain.status_json "success"
         (snprintf Driver.MAX_RESPONSE_LENGTH
            (c_str "KRL" ++ " executed for " ++ strncpy_field 32 "Ford"
             ++ ": " ++ strncpy_field Driver.MAX_COMMAND_LENGTH "weld"))).
Proof.
  apply (proj2 (proj2 (process_robot_command_output
                         (DriverMain.mkCurl true true)
                         (DriverMain.JsonFields (Some "Ford") (Some "KRL")
                            (Some "weld")) 16 ltac:(lia)))
           "Ford" "KRL" "weld").
  - reflexivity.
  - vm_compute. reflexivity.
Defined.

(** X20: [process_robot_command] posts at most one response to the robot
    interface, and none only when libcurl gave no handle.  The response it
    posts has status [success] exactly for a request that can be carried
    out, also when the post then fails and 0 is returned; its message holds
    at most 511 characters. *)
Theorem process_robot_command_posts curl input output_size :
  let o := DriverMain.process_robot_command curl input output_size in
  (DriverMain.posted o = [] <-> DriverMain.curl_easy_init_ok curl = false)
  /\ (forall response, In response (DriverMain.posted o) ->
        DriverMain.posted o = [response]
        /\ (Driver.status response = "success"
            <-> well_formed_request input)
        /\ (Driver.status response = "error"
            <-> ~ well_formed_request input)
        /\ (String.length (Driver.message response) <= 511)%nat).
Proof.
  intros o. subst o.
  destruct (DriverMain.curl_easy_init_ok curl) eqn:Hinit.
  2:{ unfold DriverMain.process_robot_command. rewrite Hinit.
      cbn [negb DriverMain.posted]. split; [tauto|].
      intros response []. }
  destruct (well_formed_request_decide input) as [Hwf|Hno].
  - pose proof Hwf as (id & fmt & cmd & -> & Hid & Hcmd & Hfmt).
    rewrite (process_robot_command_well_formed curl id fmt cmd output_size
               Hinit Hid Hcmd Hfmt).
    destruct (DriverMain.curl_easy_perform_ok curl);
      cbn [DriverMain.posted];
      (split; [split; discriminate|]);
      intros response [<-|[]]; (split; [reflexivity|]);
      cbn [Driver.status Driver.message];
      (split; [tauto|]); (split; [split; [discriminate | tauto]|]);
      apply (snprintf_length 512).
  - destruct (process_robot_command_rejected curl input output_size
                Hinit Hno) as (text & response & -> & Hstatus & Hlen).
    cbn [DriverMain.posted]. split; [split; discriminate|].
    intros r [<-|[]]. split; [reflexivity|]. rewrite Hstatus.
    split; [split; [discriminate | tauto]|]. split; [tauto | exact Hlen].
Qed.

(** The theorem on a request in a format the driver does not know: the
    response posted says [error] and names the format. *)
Lemma process_robot_command_posts_witness :
  let response :=
    Driver.mkDriverResponse "error" "Unsupported format: GCODE" in
  Driver.status response = "error" <->
  ~ well_formed_request
      (DriverMain.JsonFields (Some "Ford") (Some "GCODE") (Some "weld")).
Proof.
  intros response.
  apply (proj2 (process_robot_command_posts (DriverMain.mkCurl true true)
                  (DriverMain.JsonFields (Some "Ford") (Some "GCODE")
                     (Some "weld")) 512) response).
  left. reflexivity.
Defined.
